(** * find-org-pulls: open pull requests of several organizations, by age

    A shallow embedding of [main.go] (package [main]) and of its refactored
    twin (package [cmd], with the response types moved to package [lib]),
    together with the properties of the report they print.

    Conventions.
    - Go's [int], [int64] and [time.Duration] are 64-bit signed integers;
      they are modelled as [Z], and every addition or subtraction the code
      performs on them is wrapped by [wrap64].
    - A pointer that the code dereferences is an [option]; dereferencing
      [None] is the run-time panic of Go.
    - A slice that is only ranged over and measured is a [list]; the one
      slice the code compares with [nil] ([Errors]) is an [option (list _)].
    - [map[string]interface{}] is a [gmap string _]. *)

From Stdlib Require Import ZArith Lia Permutation Ascii String.
From stdpp Require Import base list strings pretty gmap sorting.

Local Open Scope Z_scope.

(** ** Machine integers *)

Definition maxInt64 : Z := 2 ^ 63 - 1.
Definition minInt64 : Z := - 2 ^ 63.

(** Two's complement wrap-around of a 64-bit signed integer. *)
Definition wrap64 (z : Z) : Z := (z + 2 ^ 63) mod 2 ^ 64 - 2 ^ 63.

(** ** [time.Duration]: a count of nanoseconds *)

Definition Duration := Z.

Definition Nanosecond : Duration := 1.
Definition Microsecond : Duration := 1000 * Nanosecond.
Definition Millisecond : Duration := 1000 * Microsecond.
Definition Second : Duration := 1000 * Millisecond.
Definition Minute : Duration := 60 * Second.
Definition Hour : Duration := 60 * Minute.

(** [const Day = time.Hour * 24] *)
Definition Day : Duration := Hour * 24.

(** ** Age buckets *)

Record bucket := Bucket {
  olderThan : Duration;
  label : string;
  found : bool;
  count : Z
}.

(** [var buckets = []*bucket{...}]: the fields [found] and [count] are not
    given in the literal, so they start at [false] and [0]. *)
Definition buckets : list bucket :=
  [ Bucket (365 * Day) "one year" false 0;
    Bucket (6 * 30 * Day) "six months" false 0;
    Bucket (3 * 30 * Day) "three months" false 0;
    Bucket (30 * Day) "one month" false 0;
    Bucket (7 * Day) "one week" false 0 ].

(** [bucket.count += 1] *)
Definition incr (b : bucket) : bucket :=
  Bucket (olderThan b) (label b) (found b) (wrap64 (count b + 1)).

(** [bucket.found = true] *)
Definition mark (b : bucket) : bucket :=
  Bucket (olderThan b) (label b) true (count b).

(** [getBucketLabel]: the slice holds pointers, so the updates of the loop
    body are updates of the global; the function therefore returns the
    label together with the new state of the buckets. *)
Fixpoint getBucketLabel (age : Duration) (bs : list bucket) : string * list bucket :=
  match bs with
  | [] => ("", [])
  | b :: rest =>
      if age <=? olderThan b then
        let '(l, rest') := getBucketLabel age rest in (l, b :: rest')
      else if found b then ("", incr b :: rest)
      else ("Older than " +:+ label b, mark (incr b) :: rest)
  end.

(** ** [time.Time]

    An instant with nanosecond resolution: whole seconds since January 1 of
    year 1, 00:00:00 UTC, and the nanoseconds within that second.  The zero
    value [Time{}] is that origin itself. *)

Record Time := mkTime {
  sec : Z;
  nsec : Z
}.

Definition zeroTime : Time := mkTime 0 0.

(** Seconds from year 1 to the Unix epoch (Go's [unixToInternal]). *)
Definition unixToInternal : Z :=
  (1969 * 365 + 1969 / 4 - 1969 / 100 + 1969 / 400) * 86400.

(** [t.Unix()]: whole seconds since January 1, 1970 UTC; the nanoseconds
    are dropped. *)
Definition Unix (t : Time) : Z := wrap64 (sec t - unixToInternal).

(** [t.Sub(u)]: the duration [t-u]; when it does not fit a [Duration] the
    maximum (or minimum) duration is returned, as documented for
    [time.Time.Sub].  A parsed time has no monotonic clock reading, so the
    difference from [time.Now()] is that of the wall clocks. *)
Definition Sub (t u : Time) : Duration :=
  let d := (sec t - sec u) * Second + (nsec t - nsec u) in
  if maxInt64 <? d then maxInt64
  else if d <? minInt64 then minInt64
  else d.

(** ** The response types (package [lib]; inlined in [main.go]) *)

Record extension := Extension {
  Code : string;
  TypeName : string;
  VariableName : string
}.

Record location := Location {
  Line : Z;
  Column : Z
}.

Record graphQLError := GraphQLError {
  Path : list string;
  Extensions : option extension;
  Locations : list location;
  Message : string
}.

(** [func (e *graphQLError) String() string] *)
Definition graphQLError_String (e : graphQLError) : string := Message e.

(** [Errors] is compared with [nil]: [None] is the nil slice, [Some []] the
    empty slice decoded from [[]]. *)
Record errorResponse := ErrorResponse {
  Errors : option (list graphQLError)
}.

Record author := Author {
  author_Login : string
}.

Record pullRequest := PullRequest {
  Number : Z;
  Title : string;
  PullRequest_Author : author;
  CreatedAt : string
}.

Record pullRequests := PullRequests {
  pullRequests_Nodes : list (option pullRequest)
}.

Record repository := Repository {
  Name : string;
  repository_PullRequests : pullRequests
}.

Record cursor := MkCursor {
  Cursor : string
}.

Record repositories := Repositories {
  TotalCount : Z;
  Nodes : list (option repository);
  Edges : list (option cursor)
}.

Record organization := Organization {
  Login : string;
  organization_Repositories : option repositories
}.

Record data := Data {
  data_Organization : option organization
}.

Record response := Response {
  response_Data : option data
}.

(** ** Records sent to the collector *)

(** [type Printable struct] of [main.go].  The three pointers are never nil
    in a record that was built: each was dereferenced first. *)
Record Printable := MkPrintable {
  Printable_Organization : organization;
  Printable_Repository : repository;
  Printable_PullRequest : pullRequest;
  Printable_CreatedDate : Time
}.

(** [type Row struct] of package [cmd]: a [Printable] with its age. *)
Record Row := MkRow {
  Row_Organization : organization;
  Row_Repository : repository;
  Row_PullRequest : pullRequest;
  Row_CreatedDate : Time;
  Row_Age : Duration
}.

(** ** The fetcher

    One fetcher runs per organization.  What it does to the outside world is
    recorded as a trace of events; what the outside world does to it is a
    script: the result of each round trip [client.Do] makes, in order. *)

(** A value held by [map[string]interface{}]. *)
Inductive value :=
| VNil
| VString (s : string)
| VInt (n : Z).

(** The result of [json.Unmarshal] into a value of type [A]: the error
    message, or the decoded value. *)
Definition unmarshalled (A : Type) : Type := string + A.

(** A response body that could be read.  The code decodes the same bytes
    twice, once as an [errorResponse] and once as a [response]. *)
Record body := Body {
  asErrorResponse : unmarshalled errorResponse;
  asResponse : unmarshalled response
}.

(** One round trip: [client.Do] fails with a message, or yields a status
    code and a body; the body is read by [ioutil.ReadAll], which fails with
    a message or yields the bytes. *)
Inductive roundTrip :=
| DoError (err : string)
| Responded (StatusCode : Z) (responseBody : string + body).

Inductive event (R : Type) :=
| Getting (orgName : string) (pageNumber : Z)
| Post (token : string) (variables : gmap string value)
| Send (r : R).
Arguments Getting {R} _ _.
Arguments Post {R} _ _.
Arguments Send {R} _.

(** How a call ends: it returns ([None] is the nil error), it panics on a
    nil pointer, or it waits for ever for a round trip that never ends. *)
Inductive outcome :=
| Returned (err : option string)
| Panicked
| Blocked.

(** The body of a loop either goes on with a value or leaves the function. *)
Inductive flow (A : Type) :=
| Next (a : A)
| Stop (o : outcome).
Arguments Next {A} _.
Arguments Stop {A} _.

(** A computation that writes a trace and may leave the function early. *)
Definition exec (R A : Type) : Type := list (event R) * flow A.

Definition ret {R A} (a : A) : exec R A := ([], Next a).

Definition bind {R A B} (f : A → exec R B) (m : exec R A) : exec R B :=
  match m with
  | (t, Next a) => let '(t', r) := f a in (t ++ t', r)
  | (t, Stop o) => (t, Stop o)
  end.

(** With these two instances a computation is written [x ← m; k], and
    [m ;; k] when the value of [m] is not used. *)
Global Instance exec_ret {R} : MRet (exec R) := λ A, ret.
Global Instance exec_bind {R} : MBind (exec R) := λ A B, bind.

Definition emit {R} (e : event R) : exec R unit := ([e], Next tt).

Definition leave {R A} (o : outcome) : exec R A := ([], Stop o).

(** [return fmt.Errorf(...)], [return errors.New(...)] *)
Definition fail {R A} (msg : string) : exec R A := leave (Returned (Some msg)).

(** Reading through a pointer. *)
Definition deref {R A} (p : option A) : exec R A :=
  match p with
  | Some a => ret a
  | None => leave Panicked
  end.

(** [for _, x := range l { f x }] *)
Fixpoint forEach {R A} (l : list A) (f : A → exec R unit) : exec R unit :=
  match l with
  | [] => ret tt
  | x :: l' => f x ;; forEach l' f
  end.

Definition pageSize : Z := 100.

(** The variables of the first request: [vars] as it is built before the
    loop, with [nil] for ["after"]. *)
Definition firstVars (orgName : string) : gmap string value :=
  {[ "orgName" := VString orgName; "after" := VNil;
     "pageSize" := VInt pageSize ]}.

Section Fetcher.
(** [time.Parse(time.RFC3339, s)]: the instant [s] denotes, or an error;
    on an error the time it returns is the zero [Time]. *)
Variable time_Parse : string → option Time.

(** The record type sent on the channel and the way one is built from a
    pull request and its parsed creation date: this is all in which
    [getPrintables] and [getRows] differ. *)
Context {R : Type}.
Variable build : organization → repository → pullRequest → Time → R.

(** [c, _ := time.Parse(time.RFC3339, pr.CreatedAt)] *)
Definition createdDate (pr : pullRequest) : Time :=
  match time_Parse (CreatedAt pr) with
  | Some c => c
  | None => zeroTime
  end.

(** The two nested loops over [repos.Nodes] and
    [repo.PullRequests.Nodes]. *)
Definition sendPullRequests (org : organization) (repos : repositories)
    : exec R unit :=
  forEach (Nodes repos) (λ repo',
    repo ← deref repo';
    forEach (pullRequests_Nodes (repository_PullRequests repo)) (λ pr',
      pr ← deref pr';
      emit (Send (build org repo pr (createdDate pr))))).

(** [for _, cursor := range repos.Edges { vars["after"] = cursor.Cursor }] *)
Fixpoint setAfter (edges : list (option cursor)) (vars : gmap string value)
    : exec R (gmap string value) :=
  match edges with
  | [] => ret vars
  | c' :: edges' =>
      c ← deref c';
      setAfter edges' (<["after" := VString (Cursor c)]> vars)
  end.

(** What one iteration does with the round trip it got: it leaves the
    function, or goes on to the next page with the new [vars]. *)
Definition handle (vars : gmap string value) (rt : roundTrip)
    : exec R (gmap string value) :=
  match rt with
  | DoError err => fail ("failed to make request: " +:+ err)
  | Responded code rb =>
      if bool_decide (code ≠ 200) then
        fail ("github returned " +:+ pretty code)
      else
        match rb with
        | inl _ => fail "cannot read response body"
        | inr b =>
            match asErrorResponse b with
            | inl err => fail ("failed to unmarshal error: " +:+ err)
            | inr errRes =>
                match Errors errRes with
                | Some (e :: _) =>
                    fail ("failed to make graphql request: "
                          +:+ graphQLError_String e)
                | _ =>
                    match asResponse b with
                    | inl err =>
                        fail ("failed to unmarshal response: " +:+ err)
                    | inr model =>
                        d ← deref (response_Data model);
                        org ← deref (data_Organization d);
                        repos ← deref (organization_Repositories org);
                        sendPullRequests org repos ;;
                        if bool_decide (Z.of_nat (length (Edges repos)) ≠ pageSize)
                        then leave (Returned None)
                        else setAfter (Edges repos) vars
                    end
                end
            end
        end
  end.

(** The [for { ... }] loop, run against a script.  Each iteration prints
    the page it asks for and posts the request; with no round trip left in
    the script, [client.Do] does not return.  The three error returns
    before [client.Do] are not taken: [json.Marshal] of a map of strings,
    nil and an int, the seek to the start of a new reader and
    [http.NewRequest] with a constant method and URL do not fail.  The
    channel is taken to be received from: a send does not block for
    ever. *)
Fixpoint pages (token orgName : string) (vars : gmap string value)
    (pageNumber : Z) (script : list roundTrip) : list (event R) * outcome :=
  let asked := [Getting orgName pageNumber; Post token vars] in
  match script with
  | [] => (asked, Blocked)
  | rt :: script' =>
      match handle vars rt with
      | (t, Stop o) => (asked ++ t, o)
      | (t, Next vars') =>
          let '(t', o) :=
            pages token orgName vars' (wrap64 (pageNumber + 1)) script' in
          (asked ++ t ++ t', o)
      end
  end.

(** The function up to its loop: the variables of the first request. *)
Definition fetch (token orgName : string) (script : list roundTrip)
    : list (event R) * outcome :=
  pages token orgName (firstVars orgName) 1 script.
End Fetcher.

(** [getPrintables] of [main.go]. *)
Definition getPrintables (time_Parse : string → option Time)
    (token orgName : string) (script : list roundTrip)
    : list (event Printable) * outcome :=
  fetch time_Parse MkPrintable token orgName script.

(** [getRows] of package [cmd]: [now := time.Now()] is read once, before
    the loop, and every row gets [age := now.Sub(c)]. *)
Definition getRows (time_Parse : string → option Time) (now : Time)
    (token orgName : string) (script : list roundTrip)
    : list (event Row) * outcome :=
  fetch time_Parse (λ org repo pr c, MkRow org repo pr c (Sub now c))
    token orgName script.

(** ** The collector *)

(** [sort.Slice] belongs to Go's library.  Its contract: the slice is
    permuted; when [less] is a strict weak ordering no element is less than
    one placed before it; elements that compare equal may end in any order
    (the sort is not stable); and the slice is seen through [less] and
    swaps only, so sorting commutes with a renaming of the elements. *)
Class SliceSorter := {
  sort_Slice : ∀ {A : Type}, (A → A → bool) → list A → list A;
  sort_Slice_Permutation : ∀ A (less : A → A → bool) (l : list A),
    sort_Slice less l ≡ₚ l;
  sort_Slice_sorted : ∀ A (less : A → A → bool) (l : list A),
    (∀ x y, less x y = true → less y x = false) →
    (∀ x y z, less x y = false → less y z = false → less x z = false) →
    StronglySorted (λ x y, less y x = false) (sort_Slice less l);
  sort_Slice_natural : ∀ A B (f : A → B) (lessA : A → A → bool)
      (lessB : B → B → bool) (l : list A),
    (∀ x y, lessB (f x) (f y) = lessA x y) →
    sort_Slice lessB (f <$> l) = f <$> sort_Slice lessA l
}.

(** On a short slice (of at most six elements in every version of Go, of
    at most twelve since Go 1.19) [sort.Slice] runs its insertion sort,
      [for i := a + 1; i < b; i++ {
         for j := i; j > a && less(j, j-1); j-- { swap(j, j-1) } }].
    [sink] is the inner loop: the elements on the left of [x] are held
    nearest first, and [x] moves left past those it is less than. *)
Fixpoint sink {A} (less : A → A → bool) (x : A) (before : list A) : list A :=
  match before with
  | [] => [x]
  | y :: before' =>
      if less x y then y :: sink less x before' else x :: before
  end.

Definition insertionSort {A} (less : A → A → bool) (l : list A) : list A :=
  reverse (foldl (λ before x, sink less x before) [] l).

(** What the program prints on standard output from its main goroutine. *)
Inductive line :=
| NoToken                          (* Failed to get github token *)
| FoundPulls (n : Z)               (* Found %d open pull requests *)
| Label (s : string)               (* the label of a bucket, on a line *)
| Pull (age : Duration) (org repo : string) (number : Z)
       (title author : string)
    (* %d days | github.com/%s/%s/pull/%d: %s <%s>, where the days are
       int(age.Hours()/24) *)
| SummaryOf (n : Z)                (* Summary of %d PRs *)
| BucketCount (l : string) (n : Z) (* - %s: %d PRs *)
| NewerThan (l : string) (n : Z)   (* - Newer than %s: %d *)
| Garbled (text : line).
    (* a text holding a percent sign, as fmt.Printf prints it when it is
       given as the format with no operand: not the text itself *)

(** [var orgNames] of [main]. *)
Definition orgNames : list string :=
  ["gdbu"; "hatch1fy"; "hatchify"; "hatch-integrations"; "vroomy"].

(** The receive loop, [for done < len(orgNames) { select { ... } }], run on
    the sequence in which the two channels deliver: a record, or the done
    signal of a fetcher.  It blocks for ever ([None]) when nothing is left
    to receive before every fetcher is done. *)
Fixpoint drain {R} (orgs done : nat) (received : list R)
    (arrivals : list (R + unit)) : option (list R) :=
  if bool_decide (done < orgs)%nat then
    match arrivals with
    | [] => None
    | inl r :: arrivals' => drain orgs done (received ++ [r]) arrivals'
    | inr _ :: arrivals' => drain orgs (S done) received arrivals'
    end
  else Some received.

Section PrintLoop.
(** The two programs differ in where the age of a record comes from and
    in how its line is formatted. *)
Context {R : Type}.
Variable ageOf : R → Duration.
Variable lineOf : R → line.

(** [for _, p := range printables { ... }] *)
Fixpoint printLoop (rs : list R) (bs : list bucket)
    : list line * list bucket :=
  match rs with
  | [] => ([], bs)
  | p :: rs' =>
      let '(l, bs1) := getBucketLabel (ageOf p) bs in
      let '(out, bs2) := printLoop rs' bs1 in
      ((if bool_decide (l ≠ "") then [Label l] else []) ++ lineOf p :: out,
       bs2)
  end.
End PrintLoop.

(** The summary.  [sumCounts] is the variable [count] of [main] after the
    loop over the buckets; the last line names [buckets[len(buckets)-1]],
    which panics ([None]) on an empty slice. *)
Definition sumCounts (bs : list bucket) : Z :=
  foldl (λ c b, wrap64 (c + count b)) 0 bs.

Definition summary (total : Z) (bs : list bucket) : option (list line) :=
  newest ← last bs;
  Some (SummaryOf total
        :: ((λ b, BucketCount (label b) (count b)) <$> bs)
        ++ [NewerThan (label newest) (wrap64 (total - sumCounts bs))]).

(** The comparison handed to [sort.Slice], in both programs. *)
Definition byCreatedDate {R} (createdDate : R → Time) (x y : R) : bool :=
  Unix (createdDate x) <? Unix (createdDate y).

(** The line of a pull request in [main.go]. *)
Definition Printable_line (age : Duration) (p : Printable) : line :=
  Pull age
    (Login (Printable_Organization p))
    (Name (Printable_Repository p))
    (Number (Printable_PullRequest p))
    (Title (Printable_PullRequest p))
    (author_Login (PullRequest_Author (Printable_PullRequest p))).

(** [func (row *Row) String() string] of package [cmd]: the text of the
    line. *)
Definition Row_String (row : Row) : line :=
  Pull (Row_Age row)
    (Login (Row_Organization row))
    (Name (Row_Repository row))
    (Number (Row_PullRequest row))
    (Title (Row_PullRequest row))
    (author_Login (PullRequest_Author (Row_PullRequest row))).

(** Whether a text holds a percent sign. *)
Fixpoint hasPercent (s : string) : bool :=
  match s with
  | EmptyString => false
  | String c s' => bool_decide (c = "%"%char) || hasPercent s'
  end.

(** [fmt.Printf(p.String())] of package [cmd]: the text of the line is the
    format, and there is no operand.  The text is printed as it is when it
    holds no percent sign; the numbers hold none, the four strings may. *)
Definition Printf_noOperand (text : line) : line :=
  match text with
  | Pull _ org repo _ title author =>
      if hasPercent org || hasPercent repo || hasPercent title
         || hasPercent author
      then Garbled text else text
  | _ => text
  end.

Section Collector.
Context `{SliceSorter}.

(** [main] of [main.go] from the line after the receive loop on:
    [now] is what [time.Now()] returns after the sort, and the buckets
    are in their initial state, the program having one main. *)
Definition report (now : Time) (printables : list Printable)
    : option (list line) :=
  let total := Z.of_nat (length printables) in
  let sorted := sort_Slice (byCreatedDate Printable_CreatedDate) printables in
  let age p := Sub now (Printable_CreatedDate p) in
  let '(out, bs) :=
    printLoop age (λ p, Printable_line (age p) p) sorted buckets in
  tail ← summary total bs;
  Some (FoundPulls total :: out ++ tail).

(** [FindOrgPulls] of package [cmd] from the same point on: the age of a
    row was fixed by its fetcher. *)
Definition reportRows (rows : list Row) : option (list line) :=
  let total := Z.of_nat (length rows) in
  let sorted := sort_Slice (byCreatedDate Row_CreatedDate) rows in
  let '(out, bs) :=
    printLoop Row_Age (λ p, Printf_noOperand (Row_String p)) sorted buckets in
  tail ← summary total bs;
  Some (FoundPulls total :: out ++ tail).

(** [main]: without a token nothing is fetched; otherwise the records are
    received until every organization is done, then reported.  [None]:
    the program does not get to its end. *)
Definition main (token : string) (now : Time)
    (arrivals : list (Printable + unit)) : option (list line) :=
  if bool_decide (token = "") then Some [NoToken]
  else
    printables ← drain (length orgNames) 0 [] arrivals;
    report now printables.

Definition FindOrgPulls (token : string) (arrivals : list (Row + unit))
    : option (list line) :=
  if bool_decide (token = "") then Some [NoToken]
  else
    rows ← drain (length orgNames) 0 [] arrivals;
    reportRows rows.
End Collector.

(** ** A parser for the examples

    [time.Parse] belongs to Go's library, and the fetcher is defined for
    any parser.  To run the fetcher on concrete responses, this is the
    parser of the date-time strings of RFC 3339,
      [YYYY-MM-DDThh:mm:ss[.fraction](Z|+hh:mm|-hh:mm)],
    with the range checks of the calendar; any other string is an error. *)
Module RFC3339.

Definition digit (c : ascii) : option Z :=
  let n := Z.of_N (N_of_ascii c) in
  if bool_decide (48 ≤ n ≤ 57) then Some (n - 48) else None.

(** Exactly [n] digits, as a number. *)
Fixpoint number (n : nat) (acc : Z) (s : string) : option (Z * string) :=
  match n with
  | O => Some (acc, s)
  | S n' =>
      match s with
      | String c s' => d ← digit c; number n' (10 * acc + d) s'
      | EmptyString => None
      end
  end.

Definition expect (c : ascii) (s : string) : option string :=
  match s with
  | String c' s' => if bool_decide (c = c') then Some s' else None
  | EmptyString => None
  end.

(** The digits of a fraction of a second, as nanoseconds: [scale] is the
    weight of the next digit, and digits after the ninth are dropped. *)
Fixpoint fraction (scale acc : Z) (s : string) : Z * string :=
  match s with
  | String c s' =>
      match digit c with
      | Some d => fraction (scale / 10) (acc + d * scale) s'
      | None => (acc, s)
      end
  | EmptyString => (acc, s)
  end.

Definition isLeap (year : Z) : bool :=
  bool_decide (year mod 4 = 0 ∧ (year mod 100 ≠ 0 ∨ year mod 400 = 0)).

Definition daysIn (month year : Z) : Z :=
  if bool_decide (month = 2) then (if isLeap year then 29 else 28)
  else if bool_decide (month ∈ [4; 6; 9; 11]) then 30
  else 31.

(** Days from January 1, 1970 to a day of the proleptic Gregorian
    calendar. *)
Definition daysFromCivil (year month day : Z) : Z :=
  let y := if bool_decide (month ≤ 2) then year - 1 else year in
  let era := y / 400 in
  let yoe := y - era * 400 in
  let mp := if bool_decide (month ≤ 2) then month + 9 else month - 3 in
  let doy := (153 * mp + 2) / 5 + day - 1 in
  let doe := yoe * 365 + yoe / 4 - yoe / 100 + doy in
  era * 146097 + doe - 719468.

(** The zone: [Z], or a signed offset in hours and minutes; the result
    is the offset in seconds east of UTC. *)
Definition zone (s : string) : option (Z * string) :=
  match s with
  | String "Z" s' => Some (0, s')
  | String c s' =>
      sign ← (if bool_decide (c = "+"%char) then Some 1
              else if bool_decide (c = "-"%char) then Some (-1)
              else None);
      '(hh, s1) ← number 2 0 s';
      s2 ← expect ":" s1;
      '(mm, s3) ← number 2 0 s2;
      guard (hh ≤ 23 ∧ mm ≤ 59);;
      Some (sign * (hh * 3600 + mm * 60), s3)
  | EmptyString => None
  end.

Definition parse (s : string) : option Time :=
  '(year, s) ← number 4 0 s;
  s ← expect "-" s;
  '(month, s) ← number 2 0 s;
  s ← expect "-" s;
  '(day, s) ← number 2 0 s;
  s ← expect "T" s;
  '(hour, s) ← number 2 0 s;
  s ← expect ":" s;
  '(minute, s) ← number 2 0 s;
  s ← expect ":" s;
  '(second, s) ← number 2 0 s;
  '(nanos, s) ← match s with
                | String "." (String c s' as ds) =>
                    digit c;; Some (fraction 100000000 0 ds)
                | _ => Some (0, s)
                end;
  '(offset, s) ← zone s;
  guard (s = "");;
  guard (1 ≤ month ≤ 12 ∧ 1 ≤ day ≤ daysIn month year);;
  guard (hour ≤ 23 ∧ minute ≤ 59 ∧ second ≤ 59);;
  Some (mkTime (daysFromCivil year month day * 86400
                + hour * 3600 + minute * 60 + second - offset
                + unixToInternal)
               nanos).

End RFC3339.

(** ** Concrete pages, for runs of the programs *)

Module Example.

Definition pull (number : Z) (createdAt : string) : pullRequest :=
  PullRequest number "Fix the build" (Author "octocat") createdAt.

(** The cursors of a page with [n] edges. *)
Definition edges (n : nat) : list (option cursor) :=
  (λ i : nat, Some (MkCursor ("cursor" +:+ pretty i))) <$> seq 0 n.

(** The organization of a page: one repository with the given pull
    requests, and [n] edges. *)
Definition org (prs : list pullRequest) (n : nat) : organization :=
  Organization "gdbu"
    (Some (Repositories 1
             [Some (Repository "tools" (PullRequests (Some <$> prs)))]
             (edges n))).

(** A page that is received and decoded without error. *)
Definition page (prs : list pullRequest) (n : nat) : roundTrip :=
  Responded 200
    (inr (Body (inr (ErrorResponse None))
               (inr (Response (Some (Data (Some (org prs n)))))))).

(** A decoded page past the last repository: no node and no edge. *)
Definition emptyPage : roundTrip :=
  Responded 200
    (inr (Body (inr (ErrorResponse None))
               (inr (Response (Some (Data (Some
                  (Organization "gdbu" (Some (Repositories 1 [] [])))))))))).

(** The time a date-time string denotes. *)
Definition at_ (s : string) : Time := default zeroTime (RFC3339.parse s).

(** What the channels deliver when one fetcher sends [rs] and then all
    five fetchers signal that they are done. *)
Definition arrivals {R} (rs : list R) : list (R + unit) :=
  (inl <$> rs) ++ replicate 5 (inr ()).

End Example.

(** * The vocabulary of the properties *)

(** The bucket a record of a given age falls into: the position of the
    first threshold, oldest first, that the age exceeds. *)
Definition bucketOf (age : Duration) (bs : list bucket) : option nat :=
  fst <$> list_find (λ b, olderThan b < age) bs.

(** Both updates of the bucket that was chosen. *)
Definition hit (b : bucket) : bucket := mark (incr b).

(** How many of the records fall into bucket [i]. *)
Definition tally {R} (ageOf : R → Duration) (rs : list R)
    (bs : list bucket) (i : nat) : Z :=
  Z.of_nat (length (filter (λ r, bucketOf (ageOf r) bs = Some i) rs)).

(** The records that exceed no threshold. *)
Definition newer {R} (ageOf : R → Duration) (rs : list R) : list R :=
  filter (λ r, Forall (λ b, ageOf r ≤ olderThan b) buckets) rs.

(** The creation timestamp in full: nanoseconds since the origin. *)
Definition instant (t : Time) : Z := sec t * 1000000000 + nsec t.

(** The lines of pull requests among the lines printed. *)
Definition isPull (l : line) : Prop :=
  match l with
  | Pull _ _ _ _ _ _ => True
  | _ => False
  end.

Global Instance isPull_dec (l : line) : Decision (isPull l).
Proof. destruct l; simpl; apply _. Defined.

(** The records a fetcher sent, in order. *)
Definition sent {R} (t : list (event R)) : list R :=
  omap (λ e, match e with Send r => Some r | _ => None end) t.

(** The age [main] computes for a record, and its line. *)
Definition ageAt (now : Time) (p : Printable) : Duration :=
  Sub now (Printable_CreatedDate p).

Definition lineAt (now : Time) (p : Printable) : line :=
  Printable_line (ageAt now p) p.

(** The organization and the repositories of a round trip that gets past
    every error check and every pointer of [model.Data.Organization
    .Repositories]. *)
Definition decoded (rt : roundTrip) : option (organization * repositories) :=
  match rt with
  | Responded code (inr b) =>
      if bool_decide (code = 200) then
        match asErrorResponse b, asResponse b with
        | inr errRes, inr model =>
            match Errors errRes with
            | Some (_ :: _) => None
            | _ =>
                d ← response_Data model;
                org ← data_Organization d;
                repos ← organization_Repositories org;
                Some (org, repos)
            end
        | _, _ => None
        end
      else None
  | _ => None
  end.

(** Only the loop itself waits: nothing inside an iteration does. *)
Definition awake {R A} (m : exec R A) : Prop := m.2 ≠ Stop Blocked.

(** [contains needle hay]: the text [needle] occurs in [hay] as it is. *)
Fixpoint contains (needle hay : string) : bool :=
  String.prefix needle hay
  || match hay with
     | String _ hay' => contains needle hay'
     | EmptyString => false
     end.

(** The number of requests in a trace. *)
Definition requests {R} (t : list (event R)) : nat :=
  length (omap (λ e, match e with Post _ v => Some v | _ => None end) t).

(** A record none of whose printed strings holds a percent sign. *)
Definition percentFree (p : Printable) : Prop :=
  hasPercent (Login (Printable_Organization p)) = false ∧
  hasPercent (Name (Printable_Repository p)) = false ∧
  hasPercent (Title (Printable_PullRequest p)) = false ∧
  hasPercent (author_Login (PullRequest_Author (Printable_PullRequest p)))
    = false.

(** The row [getRows] builds where [getPrintables] builds a [Printable],
    when the fetcher read its clock at [now]. *)
Definition toRow (now : Time) (p : Printable) : Row :=
  MkRow (Printable_Organization p) (Printable_Repository p)
    (Printable_PullRequest p) (Printable_CreatedDate p)
    (Sub now (Printable_CreatedDate p)).

Definition event_map {R R'} (f : R → R') (e : event R) : event R' :=
  match e with
  | Getting orgName pageNumber => Getting orgName pageNumber
  | Post token variables => Post token variables
  | Send r => Send (f r)
  end.

(** The same computation, with other records sent. *)
Definition exec_map {R R' A} (f : R → R') (m : exec R A) : exec R' A :=
  (event_map f <$> m.1, m.2).

(** * Properties *)

(** ** Machine arithmetic *)

Lemma wrap64_small (z : Z) : minInt64 ≤ z ≤ maxInt64 → wrap64 z = z.
Proof.
  unfold wrap64, minInt64, maxInt64. intros Hz.
  rewrite Z.mod_small; lia.
Qed.

Lemma Day_nanoseconds : Day = 86400000000000.
Proof. reflexivity. Qed.

(** ** One call of [getBucketLabel] *)

Lemma hit_found (b : bucket) : found b = true → incr b = hit b.
Proof. destruct b as [o l f c]; simpl; intros ->; reflexivity. Qed.

(** The loop of [getBucketLabel] against its two readings: the state is
    changed at the chosen bucket and nowhere else ... *)
Lemma getBucketLabel_state (age : Duration) (bs : list bucket) :
  (getBucketLabel age bs).2 =
    match bucketOf age bs with
    | Some i => alter hit i bs
    | None => bs
    end.
Proof.
  unfold bucketOf. induction bs as [|b rest IH]; [reflexivity|].
  cbn [getBucketLabel list_find]. case_decide as Hlt.
  - destruct (Z.leb_spec age (olderThan b)); [lia|].
    destruct (found b) eqn:Hf; simpl; [by rewrite hit_found|done].
  - destruct (Z.leb_spec age (olderThan b)); [|lia].
    destruct (getBucketLabel age rest) as [l rest'] eqn:Hg. simpl in *.
    destruct (list_find _ rest) as [[i x]|]; simpl in *; by rewrite IH.
Qed.

(** ... and the label is that of the chosen bucket, the first time. *)
Lemma getBucketLabel_label (age : Duration) (bs : list bucket) :
  (getBucketLabel age bs).1 =
    match list_find (λ b, olderThan b < age) bs with
    | Some (_, b) => if found b then "" else "Older than " +:+ label b
    | None => ""
    end.
Proof.
  induction bs as [|b rest IH]; [reflexivity|].
  cbn [getBucketLabel list_find]. case_decide as Hlt.
  - destruct (Z.leb_spec age (olderThan b)); [lia|].
    by destruct (found b).
  - destruct (Z.leb_spec age (olderThan b)); [|lia].
    destruct (getBucketLabel age rest) as [l rest'] eqn:Hg. simpl in *.
    by destruct (list_find _ rest) as [[i x]|].
Qed.

Lemma bucketOf_Some (age : Duration) (bs : list bucket) (i : nat) :
  bucketOf age bs = Some i ↔
  ∃ pre b post, bs = pre ++ b :: post ∧ length pre = i ∧
    Forall (λ b', age ≤ olderThan b') pre ∧ olderThan b < age.
Proof.
  unfold bucketOf. split.
  - destruct (list_find _ bs) as [[j b]|] eqn:Hf; [|done].
    simpl. intros [= ->]. apply list_find_Some in Hf as (Hi & Hb & Hpre).
    apply list_elem_of_split_length in Hi as (pre & post & -> & ->).
    exists pre, b, post. split_and!; [done..| |done].
    apply Forall_lookup_2. intros j y Hy.
    assert (j < length pre)%nat as Hj by by eapply lookup_lt_Some.
    specialize (Hpre j y). rewrite lookup_app_l in Hpre by done.
    specialize (Hpre Hy Hj). lia.
  - intros (pre & b & post & -> & <- & Hpre & Hb).
    assert (list_find (λ b, olderThan b < age) (pre ++ b :: post)
            = Some (length pre, b)) as ->; [|done].
    apply list_find_Some. split_and!; [|done|].
    + by rewrite list_lookup_middle.
    + intros j y Hy Hj. rewrite lookup_app_l in Hy by done.
      eapply Forall_lookup_1 in Hpre; [|done]. simpl in Hpre. lia.
Qed.

Lemma bucketOf_None (age : Duration) (bs : list bucket) :
  bucketOf age bs = None ↔ Forall (λ b, age ≤ olderThan b) bs.
Proof.
  unfold bucketOf. rewrite fmap_None, list_find_None.
  apply Forall_iff. intros b. lia.
Qed.

(** C1, first half: the thresholds, and their order. *)
Lemma buckets_thresholds :
  olderThan <$> buckets = [365 * Day; 180 * Day; 90 * Day; 30 * Day; 7 * Day].
Proof. reflexivity. Qed.

(** C1. The five thresholds are 365, 180, 90, 30 and 7 days, oldest first.
    Whatever the state of the buckets, a call of [getBucketLabel] either
    finds no threshold that the age exceeds and changes nothing, or passes
    over the buckets whose threshold the age does not exceed and adds one
    to the counter of the first bucket whose threshold it exceeds, and to
    no other. *)
Theorem C1_first_exceeded_threshold_is_counted :
  olderThan <$> buckets = [365 * Day; 180 * Day; 90 * Day; 30 * Day; 7 * Day] ∧
  ∀ (age : Duration) (bs : list bucket),
    (Forall (λ b, age ≤ olderThan b) bs ∧ getBucketLabel age bs = ("", bs)) ∨
    (∃ pre b post,
       bs = pre ++ b :: post ∧
       Forall (λ b', age ≤ olderThan b') pre ∧
       olderThan b < age ∧
       getBucketLabel age bs =
         (if found b then "" else "Older than " +:+ label b,
          pre ++ Bucket (olderThan b) (label b) true (wrap64 (count b + 1))
              :: post)).
Proof.
  split; [reflexivity|]. intros age bs.
  destruct (bucketOf age bs) as [i|] eqn:Hi.
  - right. pose proof Hi as Hsel.
    apply bucketOf_Some in Hi as (pre & b & post & -> & <- & Hpre & Hb).
    exists pre, b, post. split_and!; [done..|].
    apply injective_projections.
    + rewrite getBucketLabel_label. simpl.
      unfold bucketOf in Hsel.
      destruct (list_find _ _) as [[j x]|] eqn:Hf; [|done].
      simpl in Hsel. injection Hsel as ->.
      apply list_find_Some in Hf as (Hx & _ & _).
      rewrite list_lookup_middle in Hx by done. by injection Hx as <-.
    + rewrite getBucketLabel_state, Hsel. simpl.
      by rewrite alter_app_r_alt, Nat.sub_diag by done.
  - left. pose proof Hi as Hnone. apply bucketOf_None in Hi. split; [done|].
    apply injective_projections.
    + rewrite getBucketLabel_label. simpl. unfold bucketOf in Hnone.
      by destruct (list_find _ _).
    + by rewrite getBucketLabel_state, Hnone.
Qed.

(** C2. An age equal to the threshold of a bucket does not exceed it: that
    bucket is left as it was, whatever the state.  On the initial buckets,
    365 days is counted as older than six months and not as older than a
    year; one second more is older than a year. *)
Theorem C2_age_equal_to_threshold_is_not_older :
  (∀ (bs : list bucket) (i : nat) (b : bucket),
     bs !! i = Some b →
     bucketOf (olderThan b) bs ≠ Some i ∧
     (getBucketLabel (olderThan b) bs).2 !! i = Some b) ∧
  getBucketLabel (365 * Day) buckets =
    ("Older than six months",
     [ Bucket (365 * Day) "one year" false 0;
       Bucket (6 * 30 * Day) "six months" true 1;
       Bucket (3 * 30 * Day) "three months" false 0;
       Bucket (30 * Day) "one month" false 0;
       Bucket (7 * Day) "one week" false 0 ]) ∧
  getBucketLabel (365 * Day + Second) buckets =
    ("Older than one year",
     [ Bucket (365 * Day) "one year" true 1;
       Bucket (6 * 30 * Day) "six months" false 0;
       Bucket (3 * 30 * Day) "three months" false 0;
       Bucket (30 * Day) "one month" false 0;
       Bucket (7 * Day) "one week" false 0 ]).
Proof.
  split_and!; [|reflexivity..].
  intros bs i b Hb.
  assert (bucketOf (olderThan b) bs ≠ Some i) as Hne.
  { intros (pre & b' & post & -> & <- & _ & Hlt)%bucketOf_Some.
    rewrite list_lookup_middle in Hb by done. injection Hb as ->. lia. }
  split; [done|]. rewrite getBucketLabel_state.
  destruct (bucketOf _ bs) as [j|]; [|done].
  rewrite list_lookup_alter_ne; [done|congruence].
Qed.

(** ** The print loop *)

Lemma thresholds_alter_hit (i : nat) (bs : list bucket) :
  olderThan <$> alter hit i bs = olderThan <$> bs.
Proof.
  revert i. induction bs as [|b bs IH]; intros [|i]; [done..|].
  change (alter hit (S i) (b :: bs)) with (b :: alter hit i bs).
  by rewrite !fmap_cons, IH.
Qed.

Lemma labels_alter_hit (i : nat) (bs : list bucket) :
  label <$> alter hit i bs = label <$> bs.
Proof.
  revert i. induction bs as [|b bs IH]; intros [|i]; [done..|].
  change (alter hit (S i) (b :: bs)) with (b :: alter hit i bs).
  by rewrite !fmap_cons, IH.
Qed.

(** The bucket of an age depends on the thresholds only. *)
Lemma bucketOf_thresholds (age : Duration) (bs bs' : list bucket) :
  olderThan <$> bs = olderThan <$> bs' → bucketOf age bs = bucketOf age bs'.
Proof.
  intros Heq. unfold bucketOf.
  pose proof (list_find_fmap olderThan (λ t, t < age) bs) as H1.
  pose proof (list_find_fmap olderThan (λ t, t < age) bs') as H2.
  rewrite Heq, H2 in H1. clear H2.
  change ((λ t, t < age) ∘ olderThan) with (λ b, olderThan b < age) in H1.
  destruct (list_find _ bs') as [[i x]|], (list_find _ bs) as [[j y]|];
    simpl in *; congruence.
Qed.

Lemma getBucketLabel_thresholds (age : Duration) (bs : list bucket) :
  olderThan <$> (getBucketLabel age bs).2 = olderThan <$> bs.
Proof.
  rewrite getBucketLabel_state.
  destruct (bucketOf age bs); [apply thresholds_alter_hit|done].
Qed.

Lemma getBucketLabel_labels (age : Duration) (bs : list bucket) :
  label <$> (getBucketLabel age bs).2 = label <$> bs.
Proof.
  rewrite getBucketLabel_state.
  destruct (bucketOf age bs); [apply labels_alter_hit|done].
Qed.

Section PrintLoopFacts.
Context {R : Type}.
Variable ageOf : R → Duration.
Variable lineOf : R → line.

Lemma printLoop_cons (r : R) (rs : list R) (bs : list bucket) :
  printLoop ageOf lineOf (r :: rs) bs =
    let g := getBucketLabel (ageOf r) bs in
    let p := printLoop ageOf lineOf rs g.2 in
    ((if bool_decide (g.1 ≠ "") then [Label g.1] else [])
       ++ lineOf r :: p.1, p.2).
Proof.
  cbn [printLoop]. destruct (getBucketLabel _ bs) as [l bs1]. cbn.
  by destruct (printLoop _ _ rs bs1).
Qed.

Lemma tally_thresholds (rs : list R) (bs bs' : list bucket) (i : nat) :
  olderThan <$> bs = olderThan <$> bs' → tally ageOf rs bs i = tally ageOf rs bs' i.
Proof.
  intros Heq. unfold tally. do 2 f_equal. apply list_filter_iff.
  intros r. by rewrite (bucketOf_thresholds _ bs bs').
Qed.

Lemma tally_cons (r : R) (rs : list R) (bs : list bucket) (i : nat) :
  tally ageOf (r :: rs) bs i =
    (if decide (bucketOf (ageOf r) bs = Some i) then 1 else 0)
    + tally ageOf rs bs i.
Proof.
  unfold tally. rewrite filter_cons. case_decide; simpl; lia.
Qed.

Lemma tally_nonneg (rs : list R) (bs : list bucket) (i : nat) :
  0 ≤ tally ageOf rs bs i ≤ Z.of_nat (length rs).
Proof.
  unfold tally. pose proof (length_filter (λ r, bucketOf (ageOf r) bs = Some i) rs).
  lia.
Qed.

(** The loop keeps thresholds and labels, and while no counter can
    overflow each counter grows by the number of records of its bucket. *)
Lemma printLoop_counts (rs : list R) (bs : list bucket) :
  Forall (λ b, 0 ≤ count b ∧ count b + Z.of_nat (length rs) ≤ maxInt64) bs →
  let bs' := (printLoop ageOf lineOf rs bs).2 in
  olderThan <$> bs' = olderThan <$> bs ∧
  label <$> bs' = label <$> bs ∧
  ∀ i b, bs !! i = Some b →
    count <$> bs' !! i = Some (count b + tally ageOf rs bs i).
Proof.
  revert bs. induction rs as [|r rs IH]; intros bs Hbs.
  { simpl. split_and!; [done..|]. intros i b ->. simpl.
    unfold tally. simpl. f_equal. lia. }
  rewrite printLoop_cons. cbn zeta. cbn [snd].
  set (bs1 := (getBucketLabel (ageOf r) bs).2).
  assert (olderThan <$> bs1 = olderThan <$> bs) as Hth
    by apply getBucketLabel_thresholds.
  assert (label <$> bs1 = label <$> bs) as Hla
    by apply getBucketLabel_labels.
  assert (∀ i b, bs !! i = Some b →
            ∃ b1, bs1 !! i = Some b1 ∧
              count b1 = count b +
                (if decide (bucketOf (ageOf r) bs = Some i) then 1 else 0))
    as Hstep.
  { intros i b Hb. unfold bs1. rewrite getBucketLabel_state.
    eapply Forall_lookup_1 in Hbs as Hbound; [|done]. cbv beta in Hbound.
    rewrite length_cons, Nat2Z.inj_succ in Hbound.
    destruct (bucketOf (ageOf r) bs) as [j|] eqn:Hj.
    - destruct (decide (j = i)) as [->|Hne].
      + exists (hit b). rewrite list_lookup_alter_eq, Hb. split; [done|].
        rewrite decide_True by done. simpl. apply wrap64_small.
        unfold minInt64, maxInt64 in *. lia.
      + exists b. rewrite list_lookup_alter_ne by done. split; [done|].
        rewrite decide_False by congruence. lia.
    - exists b. split; [done|]. rewrite decide_False by done. lia. }
  destruct (IH bs1) as (IH1 & IH2 & IH3).
  { apply Forall_lookup_2. intros i b1 Hb1.
    assert (is_Some (bs !! i)) as [b Hb].
    { apply lookup_lt_is_Some. apply lookup_lt_Some in Hb1.
      apply (f_equal length) in Hth. rewrite !length_fmap in Hth. lia. }
    destruct (Hstep i b Hb) as (b1' & Hb1' & Hc).
    rewrite Hb1 in Hb1'. injection Hb1' as <-.
    eapply Forall_lookup_1 in Hbs as Hbound; [|done]. cbv beta in Hbound.
    rewrite length_cons, Nat2Z.inj_succ in Hbound. case_decide; lia. }
  split_and!; [congruence..|].
  intros i b Hb. destruct (Hstep i b Hb) as (b1 & Hb1 & Hc).
  rewrite (IH3 i b1 Hb1). f_equal.
  rewrite tally_cons, (tally_thresholds rs bs1 bs) by done. lia.
Qed.
End PrintLoopFacts.

Lemma bucketOf_lt (age : Duration) (bs : list bucket) (i : nat) :
  bucketOf age bs = Some i → (i < length bs)%nat.
Proof.
  intros (pre & b & post & -> & <- & _)%bucketOf_Some.
  rewrite length_app, length_cons. lia.
Qed.

(** A record exceeds no threshold exactly when it falls into no bucket. *)
Lemma exceeds_none_iff (age : Duration) (bs : list bucket) :
  Forall (λ b, age ≤ olderThan b) bs ↔ bucketOf age bs = None.
Proof. symmetry. apply bucketOf_None. Qed.

Section Summary.
Context {R : Type}.
Variable ageOf : R → Duration.
Variable lineOf : R → line.

(** Every record falls into one of the five buckets or into none. *)
Lemma tally_partition (rs : list R) :
  tally ageOf rs buckets 0 + tally ageOf rs buckets 1
  + tally ageOf rs buckets 2 + tally ageOf rs buckets 3
  + tally ageOf rs buckets 4 + Z.of_nat (length (newer ageOf rs))
  = Z.of_nat (length rs).
Proof.
  unfold newer. induction rs as [|r rs IH]; [reflexivity|].
  rewrite filter_cons.
  destruct (decide _) as [Hn|Hn]; rewrite exceeds_none_iff in Hn;
    rewrite !tally_cons, !length_cons, ?Nat2Z.inj_succ.
  - rewrite Hn. repeat case_decide; simplify_eq; lia.
  - destruct (bucketOf (ageOf r) buckets) as [i|] eqn:Hi; [|done].
    apply bucketOf_lt in Hi as Hlt. simpl in Hlt.
    destruct i as [|[|[|[|[|i]]]]]; [..|lia];
      repeat case_decide; simplify_eq; lia.
Qed.

(** The summary after the print loop, count by count. *)
Lemma summary_tallies (rs : list R) :
  Z.of_nat (length rs) ≤ maxInt64 →
  summary (Z.of_nat (length rs)) (printLoop ageOf lineOf rs buckets).2 =
    Some [ SummaryOf (Z.of_nat (length rs));
           BucketCount "one year" (tally ageOf rs buckets 0);
           BucketCount "six months" (tally ageOf rs buckets 1);
           BucketCount "three months" (tally ageOf rs buckets 2);
           BucketCount "one month" (tally ageOf rs buckets 3);
           BucketCount "one week" (tally ageOf rs buckets 4);
           NewerThan "one week" (Z.of_nat (length (newer ageOf rs))) ].
Proof.
  intros Hlen.
  destruct (printLoop_counts ageOf lineOf rs buckets) as (Hth & Hla & Hc).
  { repeat constructor; simpl; lia. }
  pose proof (tally_partition rs) as Hsum.
  pose proof (tally_nonneg ageOf rs buckets 0) as H0.
  pose proof (tally_nonneg ageOf rs buckets 1) as H1.
  pose proof (tally_nonneg ageOf rs buckets 2) as H2.
  pose proof (tally_nonneg ageOf rs buckets 3) as H3.
  pose proof (tally_nonneg ageOf rs buckets 4) as H4.
  pose proof (Hc 0%nat _ eq_refl) as Hc0.
  pose proof (Hc 1%nat _ eq_refl) as Hc1.
  pose proof (Hc 2%nat _ eq_refl) as Hc2.
  pose proof (Hc 3%nat _ eq_refl) as Hc3.
  pose proof (Hc 4%nat _ eq_refl) as Hc4.
  clear Hc.
  destruct (printLoop ageOf lineOf rs buckets).2
    as [|[o1 l1 f1 c1] [|[o2 l2 f2 c2] [|[o3 l3 f3 c3] [|[o4 l4 f4 c4]
        [|[o5 l5 f5 c5] [|]]]]]]; try discriminate Hth.
  simpl in Hla, Hc0, Hc1, Hc2, Hc3, Hc4. simplify_eq.
  set (n0 := tally ageOf rs buckets 0) in *.
  set (n1 := tally ageOf rs buckets 1) in *.
  set (n2 := tally ageOf rs buckets 2) in *.
  set (n3 := tally ageOf rs buckets 3) in *.
  set (n4 := tally ageOf rs buckets 4) in *.
  unfold summary, sumCounts. cbn [last foldl fmap list_fmap count label app
    mbind option_bind].
  unfold maxInt64 in Hlen.
  rewrite !Z.add_0_l.
  rewrite (wrap64_small n0) by (unfold minInt64, maxInt64; lia).
  rewrite (wrap64_small (n0 + n1)) by (unfold minInt64, maxInt64; lia).
  rewrite (wrap64_small (n0 + n1 + n2)) by (unfold minInt64, maxInt64; lia).
  rewrite (wrap64_small (n0 + n1 + n2 + n3))
    by (unfold minInt64, maxInt64; lia).
  rewrite (wrap64_small (n0 + n1 + n2 + n3 + n4))
    by (unfold minInt64, maxInt64; lia).
  rewrite wrap64_small by (unfold minInt64, maxInt64; lia).
  do 9 f_equal. lia.
Qed.

(** C3. After the print loop the summary prints the five counts and a
    remainder; the counts and the remainder add up to the number of
    records, and the remainder is the number of records that exceed no
    threshold, so it is not negative.  A slice of Go never has more than
    [maxInt64] elements. *)
Theorem C3_counts_and_remainder_add_up (rs : list R) :
  Z.of_nat (length rs) ≤ maxInt64 →
  ∃ c1 c2 c3 c4 c5 rest : Z,
    summary (Z.of_nat (length rs)) (printLoop ageOf lineOf rs buckets).2 =
      Some [ SummaryOf (Z.of_nat (length rs));
             BucketCount "one year" c1;
             BucketCount "six months" c2;
             BucketCount "three months" c3;
             BucketCount "one month" c4;
             BucketCount "one week" c5;
             NewerThan "one week" rest ] ∧
    c1 + c2 + c3 + c4 + c5 + rest = Z.of_nat (length rs) ∧
    rest = Z.of_nat (length (newer ageOf rs)) ∧
    0 ≤ rest.
Proof.
  intros Hlen. do 6 eexists.
  split_and!; [by apply summary_tallies|apply tally_partition|done|lia].
Qed.
End Summary.

(** ** Labels *)

Lemma append_inj_l (p s t : string) : p +:+ s = p +:+ t → s = t.
Proof. induction p as [|c p IH]; simpl; [done|]. intros [= ?]. auto. Qed.

Lemma buckets_labels_NoDup : NoDup (label <$> buckets).
Proof. by apply (bool_decide_unpack _). Qed.

(** A bucket that was found stays found. *)
Lemma getBucketLabel_found_mono (age : Duration) (bs : list bucket) i b :
  bs !! i = Some b → found b = true →
  ∃ b', (getBucketLabel age bs).2 !! i = Some b' ∧ found b' = true.
Proof.
  intros Hb Hf. rewrite getBucketLabel_state.
  destruct (bucketOf age bs) as [j|]; [|eauto].
  destruct (decide (j = i)) as [->|Hne].
  - exists (hit b). by rewrite list_lookup_alter_eq, Hb.
  - exists b. by rewrite list_lookup_alter_ne.
Qed.

(** The bucket a record falls into is found afterwards. *)
Lemma getBucketLabel_found_hit (age : Duration) (bs : list bucket) i :
  bucketOf age bs = Some i →
  ∃ b', (getBucketLabel age bs).2 !! i = Some b' ∧ found b' = true.
Proof.
  intros Hi. rewrite getBucketLabel_state, Hi.
  apply bucketOf_lt, lookup_lt_is_Some in Hi as [b Hb].
  exists (hit b). by rewrite list_lookup_alter_eq, Hb.
Qed.

(** A label names the bucket the record falls into, which was not found
    before. *)
Lemma getBucketLabel_label_inv (age : Duration) (bs : list bucket) s :
  (getBucketLabel age bs).1 = s → s ≠ "" →
  ∃ i b, bucketOf age bs = Some i ∧ bs !! i = Some b ∧ found b = false ∧
         s = "Older than " +:+ label b.
Proof.
  rewrite getBucketLabel_label. unfold bucketOf.
  destruct (list_find _ bs) as [[i b]|] eqn:Hf; [|congruence].
  apply list_find_Some in Hf as (Hb & _ & _).
  destruct (found b) eqn:Hfound; [congruence|].
  intros <- _. by exists i, b.
Qed.

(** A record that falls into a bucket already found gets no label. *)
Lemma getBucketLabel_no_label (age : Duration) (bs : list bucket) i b :
  bucketOf age bs = Some i → bs !! i = Some b → found b = true →
  (getBucketLabel age bs).1 = "".
Proof.
  intros Hi Hb Hf. rewrite getBucketLabel_label. unfold bucketOf in Hi.
  destruct (list_find _ bs) as [[j b']|] eqn:Hfind; [|done].
  injection Hi as ->. apply list_find_Some in Hfind as (Hb' & _ & _).
  rewrite Hb in Hb'. injection Hb' as <-. by rewrite Hf.
Qed.

Section Labels.
Context {R : Type}.
Variable ageOf : R → Duration.
Variable lineOf : R → line.

Lemma printLoop_app (rs1 rs2 : list R) (bs : list bucket) :
  printLoop ageOf lineOf (rs1 ++ rs2) bs =
    let p1 := printLoop ageOf lineOf rs1 bs in
    let p2 := printLoop ageOf lineOf rs2 p1.2 in
    (p1.1 ++ p2.1, p2.2).
Proof.
  revert bs. induction rs1 as [|r rs1 IH]; intros bs.
  { simpl. by destruct (printLoop _ _ rs2 bs). }
  rewrite <-app_comm_cons, !printLoop_cons. cbn zeta.
  rewrite IH. cbn zeta. cbn [fst snd]. by rewrite <-!app_assoc.
Qed.

Lemma printLoop_thresholds (rs : list R) (bs : list bucket) :
  olderThan <$> (printLoop ageOf lineOf rs bs).2 = olderThan <$> bs.
Proof.
  revert bs. induction rs as [|r rs IH]; intros bs; [done|].
  rewrite printLoop_cons. cbn zeta. cbn [snd].
  by rewrite IH, getBucketLabel_thresholds.
Qed.

Lemma printLoop_labels (rs : list R) (bs : list bucket) :
  label <$> (printLoop ageOf lineOf rs bs).2 = label <$> bs.
Proof.
  revert bs. induction rs as [|r rs IH]; intros bs; [done|].
  rewrite printLoop_cons. cbn zeta. cbn [snd].
  by rewrite IH, getBucketLabel_labels.
Qed.

Lemma printLoop_found_mono (rs : list R) (bs : list bucket) i b :
  bs !! i = Some b → found b = true →
  ∃ b', (printLoop ageOf lineOf rs bs).2 !! i = Some b' ∧ found b' = true.
Proof.
  revert bs b. induction rs as [|r rs IH]; intros bs b Hb Hf; [eauto|].
  rewrite printLoop_cons. cbn zeta. cbn [snd].
  destruct (getBucketLabel_found_mono (ageOf r) bs i b Hb Hf)
    as (b1 & Hb1 & Hf1).
  eauto.
Qed.

(** While a bucket is not found, no record has fallen into it. *)
Lemma printLoop_not_found (rs : list R) (bs : list bucket) i b' :
  (printLoop ageOf lineOf rs bs).2 !! i = Some b' → found b' = false →
  Forall (λ r, bucketOf (ageOf r) bs ≠ Some i) rs.
Proof.
  revert bs. induction rs as [|r rs IH]; intros bs Hb' Hf; [done|].
  rewrite printLoop_cons in Hb'. cbn zeta in Hb'. cbn [snd] in Hb'.
  constructor.
  - intros Hi.
    destruct (getBucketLabel_found_hit _ _ _ Hi) as (b1 & Hb1 & Hf1).
    destruct (printLoop_found_mono rs _ i b1 Hb1 Hf1) as (b2 & Hb2 & Hf2).
    congruence.
  - eapply Forall_impl; [by apply IH|]. intros r' Hr'. simpl in *.
    by rewrite <-(bucketOf_thresholds (ageOf r') _ bs
                    (getBucketLabel_thresholds (ageOf r) bs)).
Qed.

Hypothesis lineOf_not_Label : ∀ r s, lineOf r ≠ Label s.

(** A label in the output stands just before the line of the record that
    got it. *)
Lemma printLoop_Label_inv (rs : list R) (bs : list bucket) pre s post :
  (printLoop ageOf lineOf rs bs).1 = pre ++ Label s :: post →
  ∃ rs1 r rs2,
    rs = rs1 ++ r :: rs2 ∧
    pre = (printLoop ageOf lineOf rs1 bs).1 ∧
    (getBucketLabel (ageOf r) (printLoop ageOf lineOf rs1 bs).2).1 = s ∧
    s ≠ "" ∧
    post = lineOf r
             :: (printLoop ageOf lineOf rs2
                   (printLoop ageOf lineOf (rs1 ++ [r]) bs).2).1.
Proof.
  revert bs pre. induction rs as [|r rs IH]; intros bs pre Hout.
  { simpl in Hout. by destruct pre. }
  rewrite printLoop_cons in Hout. cbn zeta in Hout. cbn [fst] in Hout.
  set (g := getBucketLabel (ageOf r) bs) in *.
  assert (∀ pre', (printLoop ageOf lineOf rs g.2).1 = pre' ++ Label s :: post →
    ∃ rs1 r0 rs2, r :: rs = rs1 ++ r0 :: rs2 ∧
      (if bool_decide (g.1 ≠ "") then [Label g.1] else []) ++ lineOf r :: pre'
        = (printLoop ageOf lineOf rs1 bs).1 ∧
      (getBucketLabel (ageOf r0) (printLoop ageOf lineOf rs1 bs).2).1 = s ∧
      s ≠ "" ∧
      post = lineOf r0 :: (printLoop ageOf lineOf rs2
               (printLoop ageOf lineOf (rs1 ++ [r0]) bs).2).1) as Hrec.
  { intros pre' Hout'.
    destruct (IH _ _ Hout') as (rs1 & r0 & rs2 & -> & -> & Hs & Hne & ->).
    exists (r :: rs1), r0, rs2. rewrite <-!app_comm_cons, !printLoop_cons.
    cbn zeta. cbn [fst snd]. by fold g. }
  case_bool_decide as Hl.
  - destruct pre as [|x pre]; simpl in Hout.
    + injection Hout as Hs Hpost. exists [], r, rs. cbn [app].
      rewrite printLoop_cons. cbn zeta. cbn [snd]. fold g.
      split_and!; [done..|congruence|done].
    + injection Hout as <- Hout. destruct pre as [|y pre]; simpl in Hout.
      { injection Hout as Hbad _. by apply lineOf_not_Label in Hbad. }
      injection Hout as <- Hout. apply (Hrec _ Hout).
  - destruct pre as [|y pre]; simpl in Hout.
    { injection Hout as Hbad _. by apply lineOf_not_Label in Hbad. }
    injection Hout as <- Hout. apply (Hrec _ Hout).
Qed.
End Labels.

Lemma bucketOf_exceeds (age : Duration) (bs : list bucket) i b :
  bucketOf age bs = Some i → bs !! i = Some b →
  olderThan b < age ∧
  ∀ j b0, (j < i)%nat → bs !! j = Some b0 → age ≤ olderThan b0.
Proof.
  unfold bucketOf. destruct (list_find _ bs) as [[k x]|] eqn:Hf; [|done].
  simpl. intros [= ->] Hb. apply list_find_Some in Hf as (Hx & Hlt & Hpre).
  rewrite Hb in Hx. injection Hx as <-. split; [done|].
  intros j b0 Hj Hb0. specialize (Hpre j b0 Hb0 Hj). lia.
Qed.

Lemma bucketOf_intro (age : Duration) (bs : list bucket) i b :
  bs !! i = Some b → olderThan b < age →
  (∀ j b0, (j < i)%nat → bs !! j = Some b0 → age ≤ olderThan b0) →
  bucketOf age bs = Some i.
Proof.
  intros Hb Hlt Hpre. unfold bucketOf.
  assert (list_find (λ b, olderThan b < age) bs = Some (i, b)) as ->; [|done].
  apply list_find_Some. split_and!; [done..|].
  intros j y Hy Hj. specialize (Hpre j y Hj Hy). lia.
Qed.

(** In a state with the labels of [buckets], a label names one position. *)
Lemma label_position (bs : list bucket) i b j b' :
  label <$> bs = label <$> buckets →
  buckets !! i = Some b → bs !! j = Some b' → label b' = label b → j = i.
Proof.
  intros Hla Hb Hb' Heq.
  eapply (NoDup_lookup _ j i (label b)); [apply buckets_labels_NoDup|..].
  - by rewrite <-Hla, list_lookup_fmap, Hb'; simpl; rewrite Heq.
  - by rewrite list_lookup_fmap, Hb.
Qed.

Section Transitions.
Context {R : Type}.
Variable ageOf : R → Duration.
Variable lineOf : R → line.

Lemma printLoop_found_after (rs1 : list R) (r : R) (rs3 : list R)
    (bs : list bucket) (i : nat) :
  bucketOf (ageOf r) bs = Some i →
  ∃ b3, (printLoop ageOf lineOf (rs1 ++ r :: rs3) bs).2 !! i = Some b3 ∧
        found b3 = true.
Proof.
  intros Hi. rewrite printLoop_app. cbn zeta. cbn [snd].
  rewrite printLoop_cons. cbn zeta. cbn [snd].
  set (st1 := (printLoop ageOf lineOf rs1 bs).2).
  assert (bucketOf (ageOf r) st1 = Some i) as Hi1.
  { rewrite <-Hi. apply bucketOf_thresholds, printLoop_thresholds. }
  destruct (getBucketLabel_found_hit _ _ _ Hi1) as (b2 & Hb2 & Hf2).
  by eapply printLoop_found_mono.
Qed.

(** C4. When the records come in ascending order of age, the label of a
    bucket is printed at most once, and where it is printed the line after
    it is that of the first record whose age exceeds the threshold of the
    bucket; the records after it that fall into the same bucket get no
    label.  (The line of a record is never a label: it is a [Pull] line in
    both programs.) *)
Theorem C4_label_once_before_first_record (rs : list R) :
  (∀ r s, lineOf r ≠ Label s) →
  StronglySorted (λ x y, ageOf x ≤ ageOf y) rs →
  ∀ (i : nat) (b : bucket) (pre post : list line),
    buckets !! i = Some b →
    (printLoop ageOf lineOf rs buckets).1
      = pre ++ Label ("Older than " +:+ label b) :: post →
    (Label ("Older than " +:+ label b) ∉ pre) ∧
    (Label ("Older than " +:+ label b) ∉ post) ∧
    ∃ rs1 r rs2,
      rs = rs1 ++ r :: rs2 ∧
      pre = (printLoop ageOf lineOf rs1 buckets).1 ∧
      head post = Some (lineOf r) ∧
      Forall (λ r', ageOf r' ≤ olderThan b) rs1 ∧
      olderThan b < ageOf r ∧
      bucketOf (ageOf r) buckets = Some i ∧
      ∀ rs3 r' rs4,
        rs2 = rs3 ++ r' :: rs4 →
        bucketOf (ageOf r') buckets = Some i →
        (getBucketLabel (ageOf r')
           (printLoop ageOf lineOf (rs1 ++ r :: rs3) buckets).2).1 = "".
Proof.
  intros Hline Hsorted i b pre post Hb Hout.
  set (s := "Older than " +:+ label b) in *.
  destruct (printLoop_Label_inv ageOf lineOf Hline _ _ _ _ _ Hout)
    as (rs1 & r & rs2 & -> & -> & Hs & Hne & ->).
  set (st1 := (printLoop ageOf lineOf rs1 buckets).2) in *.
  assert (olderThan <$> st1 = olderThan <$> buckets) as Hth1
    by apply printLoop_thresholds.
  assert (label <$> st1 = label <$> buckets) as Hla1
    by apply printLoop_labels.
  destruct (getBucketLabel_label_inv _ _ _ Hs Hne)
    as (j & b' & Hj & Hb' & Hf' & Heq).
  apply append_inj_l in Heq.
  assert (j = i) as -> by (by eapply label_position).
  assert (bucketOf (ageOf r) buckets = Some i) as Hi
    by (by rewrite <-(bucketOf_thresholds _ st1 buckets)).
  destruct (bucketOf_exceeds _ _ _ _ Hi Hb) as (Hlt & Hpre).
  pose proof (printLoop_not_found ageOf lineOf rs1 buckets i b' Hb' Hf')
    as Hnot.
  (* a label in the output names the bucket its record falls into *)
  assert (∀ (rs0 : list R) (bs : list bucket) p q,
    olderThan <$> bs = olderThan <$> buckets →
    label <$> bs = label <$> buckets →
    (printLoop ageOf lineOf rs0 bs).1 = p ++ Label s :: q →
    ∃ ra r0 rb b0, rs0 = ra ++ r0 :: rb ∧
      bucketOf (ageOf r0) buckets = Some i ∧
      (printLoop ageOf lineOf ra bs).2 !! i = Some b0 ∧ found b0 = false)
    as Hwho.
  { intros rs0 bs p q Hth Hla Hpq.
    destruct (printLoop_Label_inv ageOf lineOf Hline _ _ _ _ _ Hpq)
      as (ra & r0 & rb & -> & _ & Hs0 & _ & _).
    destruct (getBucketLabel_label_inv _ _ _ Hs0 Hne)
      as (j0 & b0 & Hj0 & Hb0 & Hf0 & Heq0).
    apply append_inj_l in Heq0.
    assert (j0 = i) as ->.
    { eapply label_position; [|done..].
      by rewrite printLoop_labels. }
    exists ra, r0, rb, b0. split_and!; [done| |done..].
    rewrite <-Hj0. apply bucketOf_thresholds.
    by rewrite printLoop_thresholds. }
  split_and!.
  - intros (p & q & Hpq)%list_elem_of_split.
    destruct (Hwho rs1 buckets p q eq_refl eq_refl Hpq)
      as (ra & r0 & rb & b0 & -> & Hi0 & _).
    apply Forall_app in Hnot as [_ Hnot].
    apply Forall_cons in Hnot as [Hnot _]. done.
  - intros [Hbad|Hin]%elem_of_cons; [by eapply Hline|].
    apply list_elem_of_split in Hin as (p & q & Hpq).
    set (st2 := (printLoop ageOf lineOf (rs1 ++ [r]) buckets).2) in *.
    destruct (Hwho rs2 st2 p q) as (ra & r0 & rb & b0 & -> & _ & Hb0 & Hf0);
      [apply printLoop_thresholds|apply printLoop_labels|done|].
    destruct (printLoop_found_after rs1 r [] buckets i Hi)
      as (b2 & Hb2 & Hf2).
    destruct (printLoop_found_mono ageOf lineOf ra st2 i b2 Hb2 Hf2)
      as (b3 & Hb3 & Hf3).
    congruence.
  - exists rs1, r, rs2. split_and!; [done..| |done|done|].
    + apply StronglySorted_app in Hsorted as (Hle & _ & _).
      apply Forall_forall. intros r' Hr'.
      destruct (decide (ageOf r' ≤ olderThan b)) as [|Hgt]; [done|].
      exfalso. eapply Forall_forall in Hnot; [|done]. apply Hnot.
      eapply bucketOf_intro; [done|lia|].
      intros k b0 Hk Hb0. specialize (Hpre k b0 Hk Hb0).
      specialize (Hle r' r Hr' ltac:(left)). simpl in Hle. lia.
    + intros rs3 r' rs4 -> Hi'.
      destruct (printLoop_found_after rs1 r rs3 buckets i Hi)
        as (b3 & Hb3 & Hf3).
      eapply getBucketLabel_no_label; [|done..].
      rewrite <-Hi'. apply bucketOf_thresholds, printLoop_thresholds.
Qed.
End Transitions.

(** ** The insertion sort of [sort.Slice] meets the contract *)

Section InsertionSort.
Context {A : Type}.
Variable less : A → A → bool.

Lemma sink_Permutation (x : A) (before : list A) :
  sink less x before ≡ₚ x :: before.
Proof.
  induction before as [|y before IH]; simpl; [done|].
  destruct (less x y); [|done]. rewrite IH. apply Permutation_swap.
Qed.

Lemma insertionSort_Permutation (l : list A) : insertionSort less l ≡ₚ l.
Proof.
  unfold insertionSort. rewrite reverse_Permutation.
  assert (∀ acc, foldl (λ before x, sink less x before) acc l ≡ₚ l ++ acc)
    as Hacc; [|by rewrite Hacc, app_nil_r].
  induction l as [|x l IH]; intros acc; simpl; [done|].
  rewrite IH, sink_Permutation. by rewrite Permutation_middle.
Qed.

Hypothesis less_asym : ∀ x y, less x y = true → less y x = false.
Hypothesis less_negtrans :
  ∀ x y z, less x y = false → less y z = false → less x z = false.

(** The part of the slice already sorted, nearest element first: no
    element is less than one on its left. *)
Abbreviation backwards := (StronglySorted (λ x y, less x y = false)).

Lemma sink_sorted (x : A) (before : list A) :
  backwards before → backwards (sink less x before).
Proof.
  induction 1 as [|y before Hbefore IH Hy]; simpl.
  { repeat constructor. }
  destruct (less x y) eqn:Hxy.
  - constructor; [done|]. rewrite sink_Permutation.
    constructor; [by apply less_asym|done].
  - constructor; [by constructor|].
    constructor; [done|].
    eapply Forall_impl; [exact Hy|]. simpl. eauto.
Qed.

Lemma backwards_reverse (l : list A) :
  backwards l → StronglySorted (λ x y, less y x = false) (reverse l).
Proof.
  induction 1 as [|x l Hl IH Hx]; [constructor|].
  rewrite reverse_cons. apply StronglySorted_app. split_and!.
  - intros y z Hy Hz. apply list_elem_of_singleton in Hz as ->.
    apply (proj1 (elem_of_reverse _ _)) in Hy.
    exact (proj1 (Forall_forall _ _) Hx y Hy).
  - done.
  - repeat constructor.
Qed.

Lemma insertionSort_sorted (l : list A) :
  StronglySorted (λ x y, less y x = false) (insertionSort less l).
Proof.
  unfold insertionSort. apply backwards_reverse.
  assert (∀ acc, backwards acc →
            backwards (foldl (λ before x, sink less x before) acc l))
    as Hacc; [|apply Hacc; constructor].
  induction l as [|x l IH]; intros acc Hsorted; simpl; [done|].
  by apply IH, sink_sorted.
Qed.
End InsertionSort.

Lemma sink_natural {A B} (f : A → B) (lessA : A → A → bool)
    (lessB : B → B → bool) (x : A) (before : list A) :
  (∀ x y, lessB (f x) (f y) = lessA x y) →
  sink lessB (f x) (f <$> before) = f <$> sink lessA x before.
Proof.
  intros Hless. induction before as [|y before IH]; [done|].
  rewrite fmap_cons. cbn [sink]. rewrite Hless.
  destruct (lessA x y); [|done]. by rewrite fmap_cons, IH.
Qed.

Lemma insertionSort_natural {A B} (f : A → B) (lessA : A → A → bool)
    (lessB : B → B → bool) (l : list A) :
  (∀ x y, lessB (f x) (f y) = lessA x y) →
  insertionSort lessB (f <$> l) = f <$> insertionSort lessA l.
Proof.
  intros Hless. unfold insertionSort. rewrite fmap_reverse. f_equal.
  change (@nil B) with (f <$> @nil A). generalize (@nil A).
  induction l as [|x l IH]; intros acc; [done|].
  rewrite fmap_cons. cbn [foldl].
  by rewrite (sink_natural f lessA lessB), IH.
Qed.

(** [sort.Slice] as it runs on short slices. *)
Instance insertionSorter : SliceSorter := {|
  sort_Slice := @insertionSort;
  sort_Slice_Permutation := @insertionSort_Permutation;
  sort_Slice_sorted := λ A less l asym negtrans,
    insertionSort_sorted less asym negtrans l;
  sort_Slice_natural := @insertionSort_natural
|}.

(** ** The order of the report *)

Lemma StronglySorted_weaken {A} (P Q : A → A → Prop) (l : list A) :
  (∀ x y, P x y → Q x y) → StronglySorted P l → StronglySorted Q l.
Proof.
  intros HPQ. induction 1 as [|x l Hl IH Hx]; constructor; [done|].
  eapply Forall_impl; [exact Hx|]. auto.
Qed.

Lemma byCreatedDate_asym {R} (cd : R → Time) (x y : R) :
  byCreatedDate cd x y = true → byCreatedDate cd y x = false.
Proof. unfold byCreatedDate. lia. Qed.

Lemma byCreatedDate_negtrans {R} (cd : R → Time) (x y z : R) :
  byCreatedDate cd x y = false → byCreatedDate cd y z = false →
  byCreatedDate cd x z = false.
Proof. unfold byCreatedDate. lia. Qed.

Section Order.
Context `{SliceSorter}.

(** What [sort.Slice] leaves: the same records, in the order of the Unix
    second of their creation. *)
Lemma sorted_byCreatedDate {R} (cd : R → Time) (rs : list R) :
  sort_Slice (byCreatedDate cd) rs ≡ₚ rs ∧
  StronglySorted (λ p q, Unix (cd p) ≤ Unix (cd q))
    (sort_Slice (byCreatedDate cd) rs).
Proof.
  split; [apply sort_Slice_Permutation|].
  eapply StronglySorted_weaken;
    [|apply sort_Slice_sorted;
      [apply byCreatedDate_asym|apply byCreatedDate_negtrans]].
  intros x y. unfold byCreatedDate. simpl. lia.
Qed.

Lemma printLoop_pulls {R} (ageOf : R → Duration) (lineOf : R → line)
    (rs : list R) (bs : list bucket) :
  (∀ r, isPull (lineOf r)) →
  filter isPull (printLoop ageOf lineOf rs bs).1 = lineOf <$> rs.
Proof.
  intros Hpull. revert bs. induction rs as [|r rs IH]; intros bs; [done|].
  rewrite printLoop_cons. cbn zeta. cbn [fst].
  rewrite filter_app, filter_cons, decide_True by done.
  rewrite IH, fmap_cons. by case_bool_decide.
Qed.

(** The summary is printed, and holds no line of a pull request. *)
Lemma summary_after_printLoop {R} (ageOf : R → Duration)
    (lineOf : R → line) (rs : list R) (total : Z) :
  ∃ tail, summary total (printLoop ageOf lineOf rs buckets).2 = Some tail ∧
          filter isPull tail = [].
Proof.
  pose proof (printLoop_thresholds ageOf lineOf rs buckets) as Hth.
  destruct (printLoop ageOf lineOf rs buckets).2
    as [|b1 [|b2 [|b3 [|b4 [|b5 [|]]]]]]; try discriminate Hth.
  eexists. split; reflexivity.
Qed.
End Order.


Section Report.
Context `{SliceSorter}.

Lemma report_lines (now : Time) (printables : list Printable) :
  ∃ tail,
    report now printables =
      Some (FoundPulls (Z.of_nat (length printables))
            :: (printLoop (ageAt now) (lineAt now)
                  (sort_Slice (byCreatedDate Printable_CreatedDate) printables)
                  buckets).1 ++ tail) ∧
    summary (Z.of_nat (length printables))
      (printLoop (ageAt now) (lineAt now)
         (sort_Slice (byCreatedDate Printable_CreatedDate) printables)
         buckets).2 = Some tail ∧
    filter isPull tail = [].
Proof.
  destruct (summary_after_printLoop (ageAt now) (lineAt now)
    (sort_Slice (byCreatedDate Printable_CreatedDate) printables)
    (Z.of_nat (length printables))) as (tail & Hs & Hf).
  exists tail. split_and!; [|done..]. unfold report.
  change (λ p, Printable_line (Sub now (Printable_CreatedDate p)) p)
    with (lineAt now).
  change (λ p, Sub now (Printable_CreatedDate p)) with (ageAt now).
  destruct (printLoop _ _ _ buckets) as [out bs]. simpl in *.
  by rewrite Hs.
Qed.

Lemma reportRows_lines (rows : list Row) :
  ∃ tail,
    reportRows rows =
      Some (FoundPulls (Z.of_nat (length rows))
            :: (printLoop Row_Age (λ p, Printf_noOperand (Row_String p))
                  (sort_Slice (byCreatedDate Row_CreatedDate) rows)
                  buckets).1 ++ tail) ∧
    summary (Z.of_nat (length rows))
      (printLoop Row_Age (λ p, Printf_noOperand (Row_String p))
         (sort_Slice (byCreatedDate Row_CreatedDate) rows) buckets).2
      = Some tail ∧
    filter isPull tail = [].
Proof.
  destruct (summary_after_printLoop Row_Age
    (λ p, Printf_noOperand (Row_String p))
    (sort_Slice (byCreatedDate Row_CreatedDate) rows)
    (Z.of_nat (length rows))) as (tail & Hs & Hf).
  exists tail. split_and!; [|done..]. unfold reportRows.
  destruct (printLoop _ _ _ buckets) as [out bs]. simpl in *.
  by rewrite Hs.
Qed.

(** C5, as the code has it.  Once the receive loop is over, the records
    it kept are sorted by the Unix second of their creation, and the lines
    of the pull requests are printed in that order: the sequence printed
    is a rearrangement of the records kept, and the second of creation
    never decreases along it.  Records created within the same second are
    printed in an order the sort does not fix. *)
Theorem C5_printed_in_order_of_creation_second (token : string)
    (now : Time) (arrivals : list (Printable + unit))
    (printables : list Printable) :
  token ≠ "" →
  drain (length orgNames) 0 [] arrivals = Some printables →
  ∃ sorted out,
    main token now arrivals = Some out ∧
    sorted ≡ₚ printables ∧
    StronglySorted
      (λ p q, Unix (Printable_CreatedDate p) ≤ Unix (Printable_CreatedDate q))
      sorted ∧
    filter isPull out = lineAt now <$> sorted.
Proof.
  intros Htoken Hdrain.
  destruct (report_lines now printables) as (tail & Hrep & _ & Htail).
  destruct (sorted_byCreatedDate Printable_CreatedDate printables)
    as (Hperm & Hsorted).
  eexists _, _. split_and!; [|exact Hperm|exact Hsorted|].
  - unfold main. rewrite bool_decide_false by done.
    rewrite Hdrain. simpl. exact Hrep.
  - rewrite filter_cons, decide_False by (simpl; tauto).
    rewrite filter_app, Htail, app_nil_r.
    by apply printLoop_pulls.
Qed.
End Report.

(** A run of C5: two pull requests, the older one received last. *)
Lemma C5_printed_in_order_witness :
  let records :=
    sent (getPrintables RFC3339.parse "token" "gdbu"
            [Example.page [Example.pull 1 "2020-01-05T10:00:00Z";
                           Example.pull 2 "2019-03-01T08:30:00Z"] 0]).1 in
  "token" ≠ "" ∧
  drain (length orgNames) 0 [] (Example.arrivals records) = Some records ∧
  ∃ sorted out,
    main (H := insertionSorter) "token" (Example.at_ "2020-01-11T00:00:00Z")
      (Example.arrivals records) = Some out ∧
    sorted ≡ₚ records ∧
    StronglySorted
      (λ p q, Unix (Printable_CreatedDate p) ≤ Unix (Printable_CreatedDate q))
      sorted ∧
    filter isPull out
      = lineAt (Example.at_ "2020-01-11T00:00:00Z") <$> sorted.
Proof.
  cbv zeta. split; [done|]. split; [reflexivity|].
  apply (C5_printed_in_order_of_creation_second (H := insertionSorter));
    [done|reflexivity].
Defined.

(** C5 as it is worded fails: two pull requests created within one second,
    the later one received first, are printed later one first.  The run is
    [getPrintables] on a page with both, then [main] on what it sent. *)
Lemma C5_counterexample_within_one_second :
  let records :=
    sent (getPrintables RFC3339.parse "token" "gdbu"
            [Example.page [Example.pull 1 "2020-01-01T00:00:00.5Z";
                           Example.pull 2 "2020-01-01T00:00:00.2Z"] 0]).1 in
  (Printable_CreatedDate <$> records
     = [mkTime 63713433600 500000000; mkTime 63713433600 200000000]) ∧
  main (H := insertionSorter) "token" (Example.at_ "2020-01-11T00:00:00Z")
    (Example.arrivals records) =
    Some [ FoundPulls 2;
           Label "Older than one week";
           Pull 863999500000000 "gdbu" "tools" 1 "Fix the build" "octocat";
           Pull 863999800000000 "gdbu" "tools" 2 "Fix the build" "octocat";
           SummaryOf 2;
           BucketCount "one year" 0; BucketCount "six months" 0;
           BucketCount "three months" 0; BucketCount "one month" 0;
           BucketCount "one week" 2; NewerThan "one week" 0 ] ∧
  ¬ StronglySorted
      (λ p q, instant (Printable_CreatedDate p)
              ≤ instant (Printable_CreatedDate q))
      (sort_Slice (SliceSorter := insertionSorter)
         (byCreatedDate Printable_CreatedDate) records).
Proof.
  cbv zeta. split_and!; [reflexivity|reflexivity|].
  intros Hsorted. apply StronglySorted_cons in Hsorted as [Hle _].
  apply Forall_cons in Hle as [Hle _]. vm_compute in Hle. by apply Hle.
Qed.

(** A run of C3: five records, one in each but the oldest bucket and one
    newer than a week. *)
Lemma C3_counts_and_remainder_witness :
  let rs := [400 * Day; 200 * Day; 40 * Day; 10 * Day; 3 * Day] in
  let lineOf := λ age : Duration, Pull age "gdbu" "tools" 1 "t" "a" in
  Z.of_nat (length rs) ≤ maxInt64 ∧
  ∃ c1 c2 c3 c4 c5 rest : Z,
    summary (Z.of_nat (length rs)) (printLoop id lineOf rs buckets).2 =
      Some [ SummaryOf (Z.of_nat (length rs));
             BucketCount "one year" c1;
             BucketCount "six months" c2;
             BucketCount "three months" c3;
             BucketCount "one month" c4;
             BucketCount "one week" c5;
             NewerThan "one week" rest ] ∧
    c1 + c2 + c3 + c4 + c5 + rest = Z.of_nat (length rs) ∧
    rest = Z.of_nat (length (newer id rs)) ∧
    0 ≤ rest.
Proof.
  cbv zeta. split; [done|].
  apply (C3_counts_and_remainder_add_up id); done.
Defined.

(** A run of C4: ages of 3, 10, 12 and 40 days, in this order; the label
    of the bucket of one week comes after the first line. *)
Lemma C4_label_once_witness :
  let rs := [3 * Day; 10 * Day; 12 * Day; 40 * Day] in
  let lineOf := λ age : Duration, Pull age "gdbu" "tools" 1 "t" "a" in
  let b := Bucket (7 * Day) "one week" false 0 in
  let pre := [lineOf (3 * Day)] in
  let post := [lineOf (10 * Day); lineOf (12 * Day);
               Label "Older than one month"; lineOf (40 * Day)] in
  (∀ r s, lineOf r ≠ Label s) ∧
  StronglySorted (λ x y : Duration, id x ≤ id y) rs ∧
  buckets !! 4%nat = Some b ∧
  (printLoop id lineOf rs buckets).1
    = pre ++ Label ("Older than " +:+ label b) :: post ∧
  (Label ("Older than " +:+ label b) ∉ pre) ∧
  (Label ("Older than " +:+ label b) ∉ post).
Proof.
  cbv zeta.
  assert (∀ (r : Duration) s, Pull r "gdbu" "tools" 1 "t" "a" ≠ Label s)
    as Hline by done.
  assert (StronglySorted (λ x y : Duration, id x ≤ id y)
            [3 * Day; 10 * Day; 12 * Day; 40 * Day]) as Hsorted.
  { repeat (constructor; [|by repeat constructor]). constructor. }
  split_and!; [done|done|reflexivity|reflexivity|..];
    destruct (C4_label_once_before_first_record id
                (λ age : Duration, Pull age "gdbu" "tools" 1 "t" "a")
                [3 * Day; 10 * Day; 12 * Day; 40 * Day] Hline Hsorted 4
                (Bucket (7 * Day) "one week" false 0)
                [Pull (3 * Day) "gdbu" "tools" 1 "t" "a"]
                [Pull (10 * Day) "gdbu" "tools" 1 "t" "a";
                 Pull (12 * Day) "gdbu" "tools" 1 "t" "a";
                 Label "Older than one month";
                 Pull (40 * Day) "gdbu" "tools" 1 "t" "a"]
                eq_refl eq_refl) as (Hpre & Hpost & _); assumption.
Defined.

(** ** The fetcher, page by page *)

Lemma bind_Next {R A B} (t : list (event R)) (a : A) (f : A → exec R B) :
  ((t, Next a) : exec R A) ≫= f = (t ++ (f a).1, (f a).2).
Proof.
  unfold mbind, exec_bind, bind. by destruct (f a).
Qed.

Lemma bind_Stop {R A B} (t : list (event R)) (o : outcome) (f : A → exec R B) :
  ((t, Stop o) : exec R A) ≫= f = (t, Stop o).
Proof. reflexivity. Qed.

Lemma bind_awake {R A B} (m : exec R A) (f : A → exec R B) :
  awake m → (∀ a, awake (f a)) → awake (m ≫= f).
Proof.
  destruct m as [t [a|o]]; unfold awake; simpl;
    [|by intros Ho _ [= ->]; apply Ho].
  intros _ Hf. specialize (Hf a). by destruct (f a).
Qed.

Lemma deref_awake {R A} (p : option A) : awake (deref (R := R) p).
Proof. by destruct p. Qed.

Lemma forEach_awake {R A} (l : list A) (f : A → exec R unit) :
  (∀ x, awake (f x)) → awake (forEach l f).
Proof.
  intros Hf. induction l as [|x l IH]; [done|].
  cbn [forEach]. by apply bind_awake.
Qed.

Section FetcherFacts.
Variable time_Parse : string → option Time.
Context {R : Type}.
Variable build : organization → repository → pullRequest → Time → R.

Abbreviation sendPullRequests' := (sendPullRequests time_Parse build).
Abbreviation handle' := (handle time_Parse build).
Abbreviation pages' := (pages time_Parse build).

(** A page that is decoded: its records are sent, then the number of
    edges decides. *)
Lemma handle_decoded (vars : gmap string value) (rt : roundTrip)
    (org : organization) (repos : repositories) :
  decoded rt = Some (org, repos) →
  handle' vars rt =
    (sendPullRequests' org repos;;
     if bool_decide (Z.of_nat (length (Edges repos)) ≠ pageSize)
     then leave (Returned None)
     else setAfter (Edges repos) vars).
Proof.
  destruct rt as [e|code [readErr|[[e|[errs]] [e'|[d]]]]]; cbn [decoded];
    try done; try (by case_bool_decide).
  case_bool_decide as Hcode; [subst code|done].
  cbn [asErrorResponse asResponse Errors]. intros Hd.
  unfold handle. rewrite bool_decide_false by (intros ?; done).
  cbn [asErrorResponse asResponse Errors].
  destruct errs as [[|e es]|]; [|done|];
    destruct d as [[[[login [repos'|]]|]]|]; simplify_eq/=;
    by destruct (_ ≫= _) as [t r].
Qed.

(** The loop over the edges overwrites one variable: after it, ["after"]
    holds the cursor of the last edge, and nothing else has changed.  A
    nil edge panics. *)
Lemma setAfter_last (edges : list (option cursor)) (c : cursor)
    (vars : gmap string value) :
  Forall is_Some edges → last edges = Some (Some c) →
  setAfter (R := R) edges vars
    = ([], Next (<["after" := VString (Cursor c)]> vars)).
Proof.
  revert vars. induction edges as [|[c1|] edges IH]; intros vars Hall Hlast;
    [done| |by apply Forall_cons in Hall as [[? [=]] _]].
  apply Forall_cons in Hall as [_ Hall]. cbn [setAfter deref].
  unfold mret, ret. rewrite bind_Next.
  destruct edges as [|c2 edges].
  - injection Hlast as ->. reflexivity.
  - rewrite (IH _ Hall Hlast). cbn [fst snd app].
    by rewrite insert_insert_eq.
Qed.

Lemma setAfter_nil_edge (edges : list (option cursor))
    (vars : gmap string value) :
  None ∈ edges → setAfter (R := R) edges vars = ([], Stop Panicked).
Proof.
  revert vars. induction edges as [|[c1|] edges IH]; intros vars Hin.
  - by apply elem_of_nil in Hin.
  - apply elem_of_cons in Hin as [|Hin]; [done|].
    cbn [setAfter deref]. unfold ret. rewrite bind_Next.
    by rewrite (IH _ Hin).
  - reflexivity.
Qed.

Lemma setAfter_awake (edges : list (option cursor))
    (vars : gmap string value) : awake (setAfter (R := R) edges vars).
Proof.
  revert vars. induction edges as [|c edges IH]; intros vars; [done|].
  cbn [setAfter]. apply bind_awake; [apply deref_awake|auto].
Qed.

Lemma handle_awake (vars : gmap string value) (rt : roundTrip) :
  awake (handle' vars rt).
Proof.
  destruct rt as [e|code [readErr|[[e|[errs]] m]]]; unfold handle;
    [done|case_bool_decide; try done..].
  cbn [asErrorResponse asResponse Errors].
  assert (awake (match m with
    | inl err => fail ("failed to unmarshal response: " +:+ err)
    | inr model =>
        d ← deref (response_Data model);
        org ← deref (data_Organization d);
        repos ← deref (organization_Repositories org);
        sendPullRequests' org repos;;
        if bool_decide (Z.of_nat (length (Edges repos)) ≠ pageSize)
        then leave (Returned None)
        else setAfter (Edges repos) vars
    end)) as Hm.
  { destruct m as [e|model]; [done|].
    repeat (apply bind_awake; [apply deref_awake|intros ?]).
    apply bind_awake.
    - apply forEach_awake. intros repo'.
      apply bind_awake; [apply deref_awake|intros repo].
      apply forEach_awake. intros pr'.
      by apply bind_awake; [apply deref_awake|intros pr].
    - intros _. case_bool_decide; [done|apply setAfter_awake]. }
  by destruct errs as [[|e es]|].
Qed.

Variables token orgName : string.

(** A decoded page whose number of edges is not the page size is the
    last: the function returns nil and asks for nothing more. *)
Lemma pages_last (vars : gmap string value) (n : Z) (rt : roundTrip)
    (script : list roundTrip) org repos sends :
  decoded rt = Some (org, repos) →
  sendPullRequests' org repos = (sends, Next tt) →
  length (Edges repos) ≠ 100%nat →
  pages' token orgName vars n (rt :: script)
    = ([Getting orgName n; Post token vars] ++ sends, Returned None).
Proof.
  intros Hd Hsend Hlen. cbn [pages].
  rewrite (handle_decoded _ _ _ _ Hd), Hsend, bind_Next.
  rewrite bool_decide_true by (unfold pageSize; lia).
  cbn [leave fst snd]. by rewrite app_nil_r.
Qed.

(** A decoded page with exactly the page size of edges is followed by the
    request of the next page, after the cursor of its last edge. *)
Lemma pages_next (vars : gmap string value) (n : Z) (rt : roundTrip)
    (script : list roundTrip) org repos sends c :
  decoded rt = Some (org, repos) →
  sendPullRequests' org repos = (sends, Next tt) →
  length (Edges repos) = 100%nat →
  Forall is_Some (Edges repos) →
  last (Edges repos) = Some (Some c) →
  pages' token orgName vars n (rt :: script) =
    let next := pages' token orgName (<["after" := VString (Cursor c)]> vars)
                  (wrap64 (n + 1)) script in
    ([Getting orgName n; Post token vars] ++ sends ++ next.1, next.2).
Proof.
  intros Hd Hsend Hlen Hall Hlast. cbn [pages].
  rewrite (handle_decoded _ _ _ _ Hd), Hsend, bind_Next.
  rewrite bool_decide_false by (unfold pageSize; lia).
  rewrite (setAfter_last _ _ _ Hall Hlast). cbn [fst snd].
  rewrite app_nil_r. cbn zeta. by destruct (pages _ _ _ _ _ _ script).
Qed.

(** Every iteration starts by asking for its page. *)
Lemma pages_asks (vars : gmap string value) (n : Z)
    (script : list roundTrip) :
  ∃ rest, (pages' token orgName vars n script).1
            = Getting orgName n :: Post token vars :: rest.
Proof.
  destruct script as [|rt script]; cbn [pages]; [by eexists|].
  destruct (handle _ _ vars rt) as [t [vars'|o]]; [|by eexists].
  destruct (pages _ _ _ _ _ _ script). by eexists.
Qed.

(** A fetcher that has asked for a page and waits goes on with whatever
    round trips come next. *)
Lemma pages_Blocked (vars : gmap string value) (n : Z)
    (script : list roundTrip) (t : list (event R)) :
  pages' token orgName vars n script = (t, Blocked) →
  ∃ t0 vars' n',
    t = t0 ++ [Getting orgName n'; Post token vars'] ∧
    ∀ more, pages' token orgName vars n (script ++ more) =
      let next := pages' token orgName vars' n' more in
      (t0 ++ next.1, next.2).
Proof.
  revert vars n t. induction script as [|rt script IH]; intros vars n t.
  - cbn [pages]. intros [= <-]. exists [], vars, n. split; [done|].
    intros more. cbn [app]. by destruct (pages _ _ _ _ _ _ more).
  - cbn [pages].
    pose proof (handle_awake vars rt) as Hawake.
    destruct (handle _ _ vars rt) as [tr [vars1|o]] eqn:Hrt;
      [|by intros [= _ ->]].
    destruct (pages _ _ _ _ vars1 _ script) as [t1 o1] eqn:Hrest.
    intros [= <- ->].
    destruct (IH _ _ _ Hrest) as (t0 & vars' & n' & -> & Hmore).
    exists ([Getting orgName n; Post token vars] ++ tr ++ t0), vars', n'.
    split; [by rewrite <-!app_assoc|].
    intros more. rewrite <-app_comm_cons. cbn [pages].
    rewrite Hrt, Hmore. cbn zeta.
    destruct (pages _ _ _ _ vars' n' more). cbn [fst snd].
    by rewrite <-!app_assoc.
Qed.
End FetcherFacts.

Lemma prefix_refl (s : string) : String.prefix s s = true.
Proof.
  induction s as [|c s IH]; simpl; [done|].
  by destruct (Ascii.ascii_dec c c).
Qed.

Lemma contains_append (p e : string) : contains e (p +:+ e) = true.
Proof.
  induction p as [|c p IH].
  - change ("" +:+ e) with e. destruct e as [|c e]; [done|].
    cbn [contains]. by rewrite prefix_refl.
  - change (String c p +:+ e) with (String c (p +:+ e)).
    cbn [contains]. rewrite IH. apply orb_true_r.
Qed.

Section Pagination.
Variable time_Parse : string → option Time.
Context {R : Type}.
Variable build : organization → repository → pullRequest → Time → R.
Variables token orgName : string.

Abbreviation sendAll := (sendPullRequests time_Parse build).
Abbreviation loop := (pages time_Parse build token orgName).

Lemma last_is_Some {A} (l : list (option A)) :
  Forall is_Some l → l ≠ [] → ∃ c, last l = Some (Some c).
Proof.
  intros Hall Hne. destruct (last l) as [[c|]|] eqn:Hlast.
  - by exists c.
  - apply last_Some in Hlast as (l' & ->).
    apply Forall_app in Hall as [_ Hall].
    by apply Forall_cons in Hall as [[? [=]] _].
  - by apply last_None in Hlast.
Qed.

(** C6.  The query asks for [first: $pageSize] repositories, so that a
    page has at most 100 edges.  A page that is decoded and whose records
    are all sent ends the loop exactly when it has fewer than 100 edges:
    the function then returns nil without another request.  With exactly
    100 edges the next page is requested, once; if that page has no edge
    (and so no node, [nodes] and [edges] being two views of the same
    repositories), nothing is sent for it and the function returns nil
    after that one request. *)
Theorem C6_loop_ends_on_fewer_edges_than_page_size
    (vars : gmap string value) (n : Z) (rt : roundTrip)
    (script : list roundTrip) (org : organization) (repos : repositories)
    (sends : list (event R)) :
  decoded rt = Some (org, repos) →
  sendAll org repos = (sends, Next tt) →
  Forall is_Some (Edges repos) →
  (length (Edges repos) ≤ 100)%nat →
  let asked := [Getting orgName n; Post token vars] in
  (loop vars n (rt :: script) = (asked ++ sends, Returned None)
     ↔ (length (Edges repos) < 100)%nat) ∧
  (length (Edges repos) = 100%nat →
     ∃ vars' rest,
       loop vars n (rt :: script) =
         (asked ++ sends ++ (loop vars' (wrap64 (n + 1)) script).1,
          (loop vars' (wrap64 (n + 1)) script).2) ∧
       (loop vars' (wrap64 (n + 1)) script).1 =
         Getting orgName (wrap64 (n + 1)) :: Post token vars' :: rest ∧
       ∀ rt2 script2 org2 repos2,
         script = rt2 :: script2 →
         decoded rt2 = Some (org2, repos2) →
         Edges repos2 = [] →
         length (Nodes repos2) = length (Edges repos2) →
         sendAll org2 repos2 = ([], Next tt) ∧
         loop vars n (rt :: script) =
           (asked ++ sends
              ++ [Getting orgName (wrap64 (n + 1)); Post token vars'],
            Returned None)).
Proof.
  intros Hd Hsend Hall Hmost asked.
  assert (length (Edges repos) = 100%nat →
          ∃ c rest,
            loop vars n (rt :: script) =
              (asked ++ sends
                 ++ (loop (<["after" := VString (Cursor c)]> vars)
                       (wrap64 (n + 1)) script).1,
               (loop (<["after" := VString (Cursor c)]> vars)
                  (wrap64 (n + 1)) script).2) ∧
            (loop (<["after" := VString (Cursor c)]> vars)
               (wrap64 (n + 1)) script).1 =
              Getting orgName (wrap64 (n + 1))
                :: Post token (<["after" := VString (Cursor c)]> vars)
                :: rest) as Hfull.
  { intros Hlen.
    destruct (last_is_Some (Edges repos) Hall) as [c Hc].
    { intros Hnil. by rewrite Hnil in Hlen. }
    pose proof (pages_next time_Parse build token orgName vars n rt script
                  org repos sends c Hd Hsend Hlen Hall Hc) as Hnext.
    cbn zeta in Hnext.
    destruct (pages_asks time_Parse build token orgName
                (<["after" := VString (Cursor c)]> vars) (wrap64 (n + 1))
                script) as [rest Hrest].
    by exists c, rest. }
  split; [split|].
  - intros Hrun.
    destruct (decide (length (Edges repos) < 100)%nat) as [|Hnot]; [done|].
    destruct Hfull as (c & rest & Hnext & Hrest); [lia|].
    rewrite Hnext, Hrest in Hrun. injection Hrun as Hrun _.
    apply (f_equal length) in Hrun.
    rewrite !length_app in Hrun. cbn [length] in Hrun. lia.
  - intros Hlen. eapply pages_last; [done..|lia].
  - intros Hlen. destruct (Hfull Hlen) as (c & rest & Hnext & Hrest).
    exists (<["after" := VString (Cursor c)]> vars), rest.
    split_and!; [done..|].
    intros rt2 script2 org2 repos2 -> Hd2 Hedges2 Hnodes2.
    assert (sendAll org2 repos2 = ([], Next tt)) as Hsend2.
    { rewrite Hedges2 in Hnodes2. apply nil_length_inv in Hnodes2.
      unfold sendPullRequests. by rewrite Hnodes2. }
    split; [done|].
    rewrite Hnext.
    rewrite (pages_last time_Parse build token orgName _ _ rt2 script2
               org2 repos2 [] Hd2 Hsend2) by by rewrite Hedges2.
    cbn [fst snd]. by rewrite app_nil_r.
Qed.

(** The error returns of the loop.  The fetcher has asked for a page
    ([before] is all it did so far).  If the round trip fails in any of the
    six ways, the function returns one error at once: the trace stays
    [before], with no further request and no further record, whatever round
    trips could follow.  The error ends with the message of the transport
    error or of the decoding error, or with the status code; of a list of
    GraphQL errors it ends with the message of the first and has nothing of
    the others.  For a body that cannot be read, all that is stated is that
    an error is returned at once. *)
Theorem pages_first_error_ends_the_fetcher
    (vars : gmap string value) (n : Z) (script : list roundTrip)
    (before : list (event R)) (more : list roundTrip) :
  loop vars n script = (before, Blocked) →
  (∀ err,
     loop vars n (script ++ DoError err :: more) =
       (before, Returned (Some ("failed to make request: " +:+ err)))) ∧
  (∀ code rb, code ≠ 200 →
     loop vars n (script ++ Responded code rb :: more) =
       (before, Returned (Some ("github returned " +:+ pretty code)))) ∧
  (∀ err, ∃ msg,
     loop vars n (script ++ Responded 200 (inl err) :: more) =
       (before, Returned (Some msg))) ∧
  (∀ err m,
     loop vars n (script ++ Responded 200 (inr (Body (inl err) m)) :: more) =
       (before, Returned (Some ("failed to unmarshal error: " +:+ err)))) ∧
  (∀ e es m,
     loop vars n
       (script ++ Responded 200
          (inr (Body (inr (ErrorResponse (Some (e :: es)))) m)) :: more) =
       (before,
        Returned (Some ("failed to make graphql request: " +:+ Message e)))) ∧
  (∀ errs err, errs = None ∨ errs = Some [] →
     loop vars n
       (script ++ Responded 200
          (inr (Body (inr (ErrorResponse errs)) (inl err))) :: more) =
       (before,
        Returned (Some ("failed to unmarshal response: " +:+ err)))) ∧
  (∀ text err, contains err (text +:+ err) = true).
Proof.
  intros Hblocked.
  destruct (pages_Blocked time_Parse build token orgName _ _ _ _ Hblocked)
    as (t0 & vars' & n' & -> & Happ).
  split_and!; [..|apply contains_append];
    intros; rewrite Happ; cbn zeta; cbn [pages handle].
  - done.
  - by rewrite bool_decide_true.
  - by eexists.
  - done.
  - done.
  - by destruct H as [-> | ->].
Qed.

(** The loop over the edges is a sequence of assignments to one key. *)
Lemma setAfter_foldl (edges : list (option cursor))
    (vars : gmap string value) :
  Forall is_Some edges →
  setAfter (R := R) edges vars =
    ([], Next (foldl (λ v c, <["after" := VString (Cursor c)]> v) vars
                 (omap id edges))).
Proof.
  revert vars. induction edges as [|[c|] edges IH]; intros vars Hall;
    [done| |by apply Forall_cons in Hall as [[? [=]] _]].
  apply Forall_cons in Hall as [_ Hall]. cbn [setAfter deref].
  unfold ret. rewrite bind_Next. by rewrite (IH _ Hall).
Qed.

(** C8. For a page with edges, the loop over them assigns each cursor in
    turn to ["after"], which leaves the cursor of the last edge there and
    the other variables as they were; and when the next page is requested
    (the page had 100 edges), these are the variables of the request. *)
Theorem C8_next_request_is_after_the_last_cursor
    (vars : gmap string value) (n : Z) (rt : roundTrip)
    (script : list roundTrip) (org : organization) (repos : repositories)
    (sends : list (event R)) :
  decoded rt = Some (org, repos) →
  sendAll org repos = (sends, Next tt) →
  Forall is_Some (Edges repos) →
  Edges repos ≠ [] →
  ∃ c, last (Edges repos) = Some (Some c) ∧
    setAfter (R := R) (Edges repos) vars =
      ([], Next (foldl (λ v e, <["after" := VString (Cursor e)]> v) vars
                   (omap id (Edges repos)))) ∧
    foldl (λ v e, <["after" := VString (Cursor e)]> v) vars
      (omap id (Edges repos))
      = <["after" := VString (Cursor c)]> vars ∧
    (length (Edges repos) = 100%nat →
     ∃ rest,
       (loop vars n (rt :: script)).1 =
         [Getting orgName n; Post token vars] ++ sends
         ++ Getting orgName (wrap64 (n + 1))
            :: Post token (<["after" := VString (Cursor c)]> vars) :: rest).
Proof.
  intros Hd Hsend Hall Hne.
  destruct (last_is_Some (Edges repos) Hall Hne) as [c Hc].
  exists c. split; [done|]. split; [by apply setAfter_foldl|].
  pose proof (setAfter_foldl (Edges repos) vars Hall) as Hfold.
  rewrite (setAfter_last _ _ _ Hall Hc) in Hfold.
  injection Hfold as Hfold. split; [done|].
  intros Hlen.
  rewrite (pages_next time_Parse build token orgName vars n rt script
             org repos sends c Hd Hsend Hlen Hall Hc).
  cbn zeta. cbn [fst].
  destruct (pages_asks time_Parse build token orgName
              (<["after" := VString (Cursor c)]> vars) (wrap64 (n + 1))
              script) as [rest ->].
  by exists rest.
Qed.
End Pagination.

Lemma edges_is_Some (n : nat) : Forall is_Some (Example.edges n).
Proof. unfold Example.edges. apply Forall_fmap, Forall_true. by eexists. Qed.

(** A run of C6: a full page of 100 edges, then a page without nodes and
    edges. *)
Lemma C6_loop_ends_witness :
  let rt := Example.page [Example.pull 1 "2020-01-05T10:00:00Z"] 100 in
  let org := Example.org [Example.pull 1 "2020-01-05T10:00:00Z"] 100 in
  let repos := default (Repositories 0 [] []) (organization_Repositories org) in
  let sends := (sendPullRequests RFC3339.parse MkPrintable org repos).1 in
  let run := getPrintables RFC3339.parse "token" "gdbu"
               [rt; Example.emptyPage] in
  decoded rt = Some (org, repos) ∧
  sendPullRequests RFC3339.parse MkPrintable org repos = (sends, Next tt) ∧
  Forall is_Some (Edges repos) ∧
  (length (Edges repos) ≤ 100)%nat ∧
  length (Edges repos) = 100%nat ∧
  run.2 = Returned None ∧ requests run.1 = 2%nat ∧ length (sent run.1) = 1%nat.
Proof.
  cbv zeta.
  assert (decoded (Example.page [Example.pull 1 "2020-01-05T10:00:00Z"] 100)
          = Some (Example.org [Example.pull 1 "2020-01-05T10:00:00Z"] 100,
                  Repositories 1
                    [Some (Repository "tools" (PullRequests
                       [Some (Example.pull 1 "2020-01-05T10:00:00Z")]))]
                    (Example.edges 100))) as Hd by reflexivity.
  split_and!;
    [exact Hd|reflexivity|apply edges_is_Some|exact (le_n 100)|reflexivity|..];
    unfold getPrintables, fetch;
    destruct (C6_loop_ends_on_fewer_edges_than_page_size RFC3339.parse
                MkPrintable "token" "gdbu" (firstVars "gdbu") 1 _
                [Example.emptyPage] _ _ _ Hd eq_refl (edges_is_Some 100)
                (le_n 100))
      as [_ Hfull];
    destruct (Hfull eq_refl) as (vars' & rest & _ & _ & Hempty);
    change ({[ "orgName" := VString "gdbu"; "after" := VNil;
               "pageSize" := VInt pageSize ]}) with (firstVars "gdbu");
    destruct (Hempty _ _ _ _ eq_refl eq_refl eq_refl eq_refl) as [_ Hrun];
    rewrite Hrun; reflexivity.
Defined.

(** The bound of 100 edges is used: the test of the loop is [!=], so that a
    page with 101 edges, which a server that honours [first: 100] does not
    send, would end the loop as a short page does. *)
Lemma pages_end_on_more_edges_than_asked :
  let rt := Example.page [Example.pull 1 "2020-01-05T10:00:00Z"] 101 in
  let run := getPrintables RFC3339.parse "token" "gdbu"
               [rt; Example.page [Example.pull 2 "2020-01-06T10:00:00Z"] 0] in
  (Edges <$> (snd <$> decoded rt)) = Some (Example.edges 101) ∧
  ¬ (length (Example.edges 101) < 100)%nat ∧
  run.2 = Returned None ∧
  requests run.1 = 1%nat.
Proof. cbv zeta. split_and!; [reflexivity|simpl; lia|reflexivity..]. Qed.

(** A run into an error: after a full page, a response with two GraphQL
    errors. *)
Lemma pages_first_error_example :
  let script := [Example.page [Example.pull 1 "2020-01-05T10:00:00Z"] 100] in
  let before := (getPrintables RFC3339.parse "token" "gdbu" script).1 in
  let errors := [GraphQLError [] None [] "rate limited";
                 GraphQLError [] None [] "second error"] in
  let failing :=
    Responded 200 (inr (Body (inr (ErrorResponse (Some errors)))
                             (inr (Response None)))) in
  pages RFC3339.parse MkPrintable "token" "gdbu" (firstVars "gdbu") 1 script
    = (before, Blocked) ∧
  getPrintables RFC3339.parse "token" "gdbu"
    (script ++ failing :: [Example.page [] 0])
    = (before,
       Returned (Some "failed to make graphql request: rate limited")).
Proof.
  cbv zeta.
  assert (pages RFC3339.parse MkPrintable "token" "gdbu" (firstVars "gdbu") 1
            [Example.page [Example.pull 1 "2020-01-05T10:00:00Z"] 100]
          = ((getPrintables RFC3339.parse "token" "gdbu"
                [Example.page [Example.pull 1 "2020-01-05T10:00:00Z"] 100]).1,
             Blocked)) as Hrun by reflexivity.
  split; [exact Hrun|].
  destruct (pages_first_error_ends_the_fetcher RFC3339.parse MkPrintable
              "token" "gdbu" _ _ _ _ [Example.page [] 0] Hrun)
    as (_ & _ & _ & _ & Hgraphql & _ & _).
  apply (Hgraphql (GraphQLError [] None [] "rate limited")).
Defined.

(** C7.  A response of status 200 whose body cannot be read.  The fetcher
    returns one error at once, after its one request and with no record
    sent; but the error is the same text whatever the error of the read
    was, and has nothing of it, while the error returned for a failed
    request carries the error it met. *)
Lemma C7_read_error_is_dropped :
  (∀ err,
     getPrintables RFC3339.parse "token" "gdbu" [Responded 200 (inl err)]
       = ([Getting "gdbu" 1; Post "token" (firstVars "gdbu")],
          Returned (Some "cannot read response body"))) ∧
  getPrintables RFC3339.parse "token" "gdbu"
    [Responded 200 (inl "unexpected EOF")]
    = ([Getting "gdbu" 1; Post "token" (firstVars "gdbu")],
       Returned (Some "cannot read response body")) ∧
  contains "unexpected EOF" "cannot read response body" = false ∧
  getPrintables RFC3339.parse "token" "gdbu" [DoError "unexpected EOF"]
    = ([Getting "gdbu" 1; Post "token" (firstVars "gdbu")],
       Returned (Some "failed to make request: unexpected EOF")) ∧
  contains "unexpected EOF" "failed to make request: unexpected EOF" = true.
Proof. split_and!; [intros err|..]; reflexivity. Qed.

(** A run of C8: a full page; the second request is after its last
    cursor. *)
Lemma C8_next_request_witness :
  let rt := Example.page [Example.pull 1 "2020-01-05T10:00:00Z"] 100 in
  let org := Example.org [Example.pull 1 "2020-01-05T10:00:00Z"] 100 in
  let repos := default (Repositories 0 [] []) (organization_Repositories org) in
  let sends := (sendPullRequests RFC3339.parse MkPrintable org repos).1 in
  decoded rt = Some (org, repos) ∧
  sendPullRequests RFC3339.parse MkPrintable org repos = (sends, Next tt) ∧
  Forall is_Some (Edges repos) ∧
  Edges repos ≠ [] ∧
  ∃ c, last (Edges repos) = Some (Some c) ∧
       Cursor c = "cursor99" ∧
       ∃ rest,
         (pages RFC3339.parse MkPrintable "token" "gdbu" (firstVars "gdbu") 1
            [rt]).1 =
           [Getting "gdbu" 1; Post "token" (firstVars "gdbu")] ++ sends
           ++ Getting "gdbu" (wrap64 (1 + 1))
              :: Post "token"
                   (<["after" := VString (Cursor c)]> (firstVars "gdbu"))
              :: rest.
Proof.
  cbv zeta.
  assert (decoded (Example.page [Example.pull 1 "2020-01-05T10:00:00Z"] 100)
          = Some (Example.org [Example.pull 1 "2020-01-05T10:00:00Z"] 100,
                  Repositories 1
                    [Some (Repository "tools" (PullRequests
                       [Some (Example.pull 1 "2020-01-05T10:00:00Z")]))]
                    (Example.edges 100))) as Hd by reflexivity.
  split_and!; [exact Hd|reflexivity|apply edges_is_Some|done|].
  destruct (C8_next_request_is_after_the_last_cursor RFC3339.parse
              MkPrintable "token" "gdbu" (firstVars "gdbu") 1 _ [] _ _ _
              Hd eq_refl (edges_is_Some 100))
    as (c & Hc & _ & _ & Hnext); [done|].
  exists c. split; [exact Hc|]. split; [|by apply Hnext].
  change (last (Example.edges 100) = Some (Some c)) in Hc.
  vm_compute in Hc. by injection Hc as <-.
Defined.

(** ** The two programs side by side *)

Lemma exec_map_bind {R R' A B} (f : R → R') (m : exec R A) (m' : exec R' A)
    (k : A → exec R B) (k' : A → exec R' B) :
  m' = exec_map f m → (∀ a, k' a = exec_map f (k a)) →
  m' ≫= k' = exec_map f (m ≫= k).
Proof.
  intros -> Hk. destruct m as [t [a|o]]; [|done].
  unfold exec_map. cbn [fst snd]. rewrite !bind_Next, Hk.
  unfold exec_map. cbn [fst snd]. by rewrite fmap_app.
Qed.

Lemma forEach_map {R R' A} (f : R → R') (l : list A)
    (k : A → exec R unit) (k' : A → exec R' unit) :
  (∀ a, k' a = exec_map f (k a)) →
  forEach l k' = exec_map f (forEach l k).
Proof.
  intros Hk. induction l as [|x l IH]; [done|].
  cbn [forEach]. by apply exec_map_bind.
Qed.

Lemma deref_map {R R' A} (f : R → R') (p : option A) :
  deref (R := R') p = exec_map f (deref p).
Proof. by destruct p. Qed.

Lemma setAfter_map {R R'} (f : R → R') (edges : list (option cursor))
    (vars : gmap string value) :
  setAfter (R := R') edges vars = exec_map f (setAfter edges vars).
Proof.
  revert vars. induction edges as [|c edges IH]; intros vars; [done|].
  cbn [setAfter]. apply exec_map_bind; [apply deref_map|auto].
Qed.

Section SameFetcher.
Variable time_Parse : string → option Time.
Context {R R' : Type}.
Variable build : organization → repository → pullRequest → Time → R.
Variable f : R → R'.

Let build' org repo pr c := f (build org repo pr c).

Lemma sendPullRequests_map org repos :
  sendPullRequests time_Parse build' org repos
    = exec_map f (sendPullRequests time_Parse build org repos).
Proof.
  unfold sendPullRequests. apply forEach_map. intros repo'.
  apply exec_map_bind; [apply deref_map|intros repo].
  apply forEach_map. intros pr'.
  by apply exec_map_bind; [apply deref_map|intros pr].
Qed.

Lemma handle_map vars rt :
  handle time_Parse build' vars rt
    = exec_map f (handle time_Parse build vars rt).
Proof.
  destruct rt as [e|code [readErr|[[e|[errs]] m]]]; unfold handle;
    [done|case_bool_decide; try done..].
  cbn [asErrorResponse asResponse Errors].
  destruct errs as [[|e es]|]; [|done|];
    (destruct m as [e'|model]; [done|];
     repeat (apply exec_map_bind; [apply deref_map|intros ?]);
     (apply exec_map_bind; [apply sendPullRequests_map|intros _]);
     case_bool_decide; [done|apply setAfter_map]).
Qed.

(** Two fetchers that differ in the records they build only make the
    same requests, send the corresponding records and end alike. *)
Lemma pages_map token orgName vars n script :
  pages time_Parse build' token orgName vars n script =
    (event_map f <$> (pages time_Parse build token orgName vars n script).1,
     (pages time_Parse build token orgName vars n script).2).
Proof.
  revert vars n. induction script as [|rt script IH]; intros vars n;
    [done|].
  cbn [pages]. rewrite handle_map.
  destruct (handle time_Parse build vars rt) as [t [vars'|o]];
    unfold exec_map; cbn [fst snd].
  - rewrite IH.
    destruct (pages time_Parse build token orgName vars' _ script).
    cbn [fst snd]. by rewrite !fmap_app.
  - by rewrite fmap_app.
Qed.
End SameFetcher.

Lemma printLoop_fmap {R R'} (f : R → R') (ageOf : R' → Duration)
    (lineOf : R' → line) (rs : list R) (bs : list bucket) :
  printLoop ageOf lineOf (f <$> rs) bs
    = printLoop (ageOf ∘ f) (lineOf ∘ f) rs bs.
Proof.
  revert bs. induction rs as [|r rs IH]; intros bs; [done|].
  rewrite fmap_cons, !printLoop_cons. cbn zeta. by rewrite IH.
Qed.

Lemma drain_fmap {R R'} (f : R → R') (orgs done : nat) (received : list R)
    (arrivals : list (R + unit)) :
  drain orgs done (f <$> received) (sum_map f (@id unit) <$> arrivals)
    = (fmap f : list R → list R') <$> drain orgs done received arrivals.
Proof.
  revert done received.
  induction arrivals as [|a arrivals IH]; intros done received;
    [by cbn [drain fmap list_fmap]; case_bool_decide|].
  rewrite fmap_cons. cbn [drain]. case_bool_decide; [|done].
  destruct a as [r|u]; cbn [sum_map].
  - by rewrite <-IH, fmap_app.
  - by rewrite <-IH.
Qed.

(** The line of a record is not a label, in either program. *)
Lemma lineAt_not_Label (now : Time) (p : Printable) (s : string) :
  lineAt now p ≠ Label s.
Proof. done. Qed.

Lemma Row_line_not_Label (row : Row) (s : string) :
  Printf_noOperand (Row_String row) ≠ Label s.
Proof. unfold Printf_noOperand, Row_String. by case_match. Qed.

Lemma printLoop_ext {R} (ageOf ageOf' : R → Duration)
    (lineOf lineOf' : R → line) (rs : list R) (bs : list bucket) :
  Forall (λ r, ageOf r = ageOf' r ∧ lineOf r = lineOf' r) rs →
  printLoop ageOf lineOf rs bs = printLoop ageOf' lineOf' rs bs.
Proof.
  intros Hrs. revert bs. induction Hrs as [|r rs [Hage Hline] _ IH];
    intros bs; [done|].
  rewrite !printLoop_cons. cbn zeta. by rewrite Hage, Hline, IH.
Qed.

(** What the receive loop keeps was received. *)
Lemma drain_received {R} (P : R → Prop) (orgs done : nat)
    (received : list R) (arrivals : list (R + unit)) (kept : list R) :
  drain orgs done received arrivals = Some kept →
  Forall P received →
  Forall (λ a, match a with inl r => P r | inr _ => True end) arrivals →
  Forall P kept.
Proof.
  revert done received.
  induction arrivals as [|a arrivals IH]; intros done received;
    cbn [drain]; case_bool_decide; try done; try by intros [= <-].
  intros Hkept Hreceived [Ha Harrivals]%Forall_cons. destruct a as [r|u].
  - eapply IH; [done| |done]. apply Forall_app. by repeat constructor.
  - by eapply IH.
Qed.

Lemma Printf_noOperand_percentFree (now : Time) (p : Printable) :
  percentFree p →
  Printf_noOperand (Row_String (toRow now p)) = lineAt now p.
Proof.
  intros (Horg & Hrepo & Htitle & Hauthor).
  unfold Row_String, toRow, Printf_noOperand. cbn.
  by rewrite Horg, Hrepo, Htitle, Hauthor.
Qed.

Section TwoPrograms.
Context `{SliceSorter}.

(** With the age a fetcher of package [cmd] computes at [now], the
    report of [cmd] is the report of [main.go] printed at [now], for
    records without percent signs. *)
Lemma reportRows_toRow (now : Time) (printables : list Printable) :
  Forall percentFree printables →
  reportRows (toRow now <$> printables) = report now printables.
Proof.
  intros Hplain. unfold reportRows, report. rewrite length_fmap.
  rewrite (sort_Slice_natural _ _ (toRow now)
             (byCreatedDate Printable_CreatedDate)) by done.
  rewrite printLoop_fmap.
  rewrite (printLoop_ext _ (λ p, Sub now (Printable_CreatedDate p)) _
             (λ p, Printable_line (Sub now (Printable_CreatedDate p)) p));
    [done|].
  rewrite (sort_Slice_Permutation _ _ printables).
  eapply Forall_impl; [exact Hplain|]. intros p Hp. split; [done|].
  by apply Printf_noOperand_percentFree.
Qed.

(** C9, as the code has it.  The fetchers of the two programs make the
    same requests and end alike; where [getPrintables] sends a record,
    [getRows] sends it with its age at the time the fetcher started.
    [main.go] computes the age later, at the time it prints.  Both sort
    by the creation date and not by the age.  If the one clock reading
    of the fetchers of [cmd] and that of [main] in [main.go] are the same
    instant, the two programs print the same report, for records none of
    whose strings holds a percent sign. *)
Theorem C9_same_report_when_the_clocks_agree
    (time_Parse : string → option Time) (now : Time) :
  (∀ token orgName script,
     getRows time_Parse now token orgName script =
       (event_map (toRow now)
          <$> (getPrintables time_Parse token orgName script).1,
        (getPrintables time_Parse token orgName script).2)) ∧
  (∀ token (arrivals : list (Printable + unit)),
     Forall (λ a, match a with inl p => percentFree p | inr _ => True end)
       arrivals →
     FindOrgPulls token (sum_map (toRow now) (@id unit) <$> arrivals)
       = main token now arrivals).
Proof.
  split.
  - intros token orgName script. unfold getRows, getPrintables, fetch.
    apply (pages_map time_Parse MkPrintable (toRow now)).
  - intros token arrivals Hplain. unfold FindOrgPulls, main.
    case_bool_decide; [done|].
    change (@nil Row) with (toRow now <$> @nil Printable).
    rewrite drain_fmap.
    destruct (drain _ _ _ arrivals) as [printables|] eqn:Hdrain; [|done].
    apply reportRows_toRow.
    by eapply (drain_received percentFree _ _ [] arrivals).
Qed.
End TwoPrograms.

(** A run of C9: both programs on the same two records, all clocks read at
    the same instant. *)
Lemma C9_same_report_witness :
  let now := Example.at_ "2020-01-11T00:00:00Z" in
  let arrivals : list (Printable + unit) :=
    Example.arrivals
      (sent (getPrintables RFC3339.parse "token" "gdbu"
               [Example.page [Example.pull 1 "2020-01-05T10:00:00Z";
                              Example.pull 2 "2019-03-01T08:30:00Z"] 0]).1) in
  Forall (λ a, match a with inl p => percentFree p | inr _ => True end)
    arrivals ∧
  FindOrgPulls (H := insertionSorter) "token"
    (sum_map (toRow now) (@id unit) <$> arrivals)
    = main (H := insertionSorter) "token" now arrivals.
Proof.
  cbv zeta.
  assert (Forall (λ a : Printable + unit,
                    match a with inl p => percentFree p | inr _ => True end)
            (Example.arrivals
               (sent (getPrintables RFC3339.parse "token" "gdbu"
                  [Example.page [Example.pull 1 "2020-01-05T10:00:00Z";
                     Example.pull 2 "2019-03-01T08:30:00Z"] 0]).1)))
    as Hplain by (repeat constructor).
  split; [exact Hplain|].
  by apply (C9_same_report_when_the_clocks_agree (H := insertionSorter)
              RFC3339.parse).
Defined.

(** C9 as it is worded fails: a pull request created exactly 365 days
    before its fetcher started is older than six months for package [cmd],
    and older than a year for [main.go] printing one second later. *)
Lemma C9_counterexample_printed_one_second_later :
  let script := [Example.page [Example.pull 1 "2019-01-01T00:00:00Z"] 0] in
  let fetched_at := Example.at_ "2020-01-01T00:00:00Z" in
  let printed_at := Example.at_ "2020-01-01T00:00:01Z" in
  let printables :=
    sent (getPrintables RFC3339.parse "token" "gdbu" script).1 in
  let rows :=
    sent (getRows RFC3339.parse fetched_at "token" "gdbu" script).1 in
  rows = toRow fetched_at <$> printables ∧
  main (H := insertionSorter) "token" printed_at (Example.arrivals printables)
    = Some [ FoundPulls 1;
             Label "Older than one year";
             Pull (365 * Day + Second) "gdbu" "tools" 1 "Fix the build"
               "octocat";
             SummaryOf 1;
             BucketCount "one year" 1; BucketCount "six months" 0;
             BucketCount "three months" 0; BucketCount "one month" 0;
             BucketCount "one week" 0; NewerThan "one week" 0 ] ∧
  FindOrgPulls (H := insertionSorter) "token" (Example.arrivals rows)
    = Some [ FoundPulls 1;
             Label "Older than six months";
             Pull (365 * Day) "gdbu" "tools" 1 "Fix the build" "octocat";
             SummaryOf 1;
             BucketCount "one year" 0; BucketCount "six months" 1;
             BucketCount "three months" 0; BucketCount "one month" 0;
             BucketCount "one week" 0; NewerThan "one week" 0 ].
Proof. cbv zeta. split_and!; reflexivity. Qed.

(** ** Creation dates that do not parse *)

Lemma StronglySorted_lookup_lt {A} (P : A → A → Prop) (l : list A) i j x y :
  StronglySorted P l → l !! i = Some x → l !! j = Some y → (i < j)%nat →
  P x y.
Proof.
  intros Hl. revert i j. induction Hl as [|z l Hl IH Hz]; intros i j Hx Hy Hij.
  { by rewrite lookup_nil in Hx. }
  destruct j as [|j]; [lia|]. cbn in Hy. destruct i as [|i].
  - injection Hx as <-. rewrite Forall_forall in Hz.
    apply Hz. by eapply list_elem_of_lookup_2.
  - cbn in Hx. eapply IH; [done..|lia].
Qed.

Lemma ret_bind {R A B} (a : A) (f : A → exec R B) :
  (ret a : exec R A) ≫= f = f a.
Proof. unfold ret. rewrite bind_Next. by destruct (f a). Qed.

Lemma all_Some {A} (l : list (option A)) :
  Forall is_Some l → l = Some <$> omap id l.
Proof.
  induction 1 as [|x l [a ->] _ IH]; [done|]. cbn. by rewrite <-IH.
Qed.

(** A loop over pointers none of which is nil, whose body sends one
    record. *)
Lemma forEach_send {R A} (l : list A) (h : A → R) :
  forEach (Some <$> l) (λ x', x ← deref x'; emit (Send (h x)))
    = (Send <$> (h <$> l), Next tt).
Proof.
  induction l as [|x l IH]; [done|].
  rewrite fmap_cons. cbn [forEach deref]. by rewrite ret_bind, IH.
Qed.

Section Unparseable.
Variable time_Parse : string → option Time.
Context {R : Type}.
Variable build : organization → repository → pullRequest → Time → R.

Lemma createdDate_error (pr : pullRequest) :
  time_Parse (CreatedAt pr) = None → createdDate time_Parse pr = zeroTime.
Proof. unfold createdDate. by intros ->. Qed.

(** The records of a page on which no pointer is nil are all sent, each
    with its creation date, and the iteration goes on: whether a date
    parses plays no part in it. *)
Lemma sendPullRequests_all (org : organization) (repos : repositories) :
  Forall is_Some (Nodes repos) →
  Forall (λ repo, Forall is_Some
                    (pullRequests_Nodes (repository_PullRequests repo)))
    (omap id (Nodes repos)) →
  sendPullRequests time_Parse build org repos =
    (omap id (Nodes repos) ≫= (λ repo,
       (λ pr, Send (build org repo pr (createdDate time_Parse pr)))
         <$> omap id (pullRequests_Nodes (repository_PullRequests repo))),
     Next tt).
Proof.
  intros Hrepos Hprs. unfold sendPullRequests.
  set (rs := omap id (Nodes repos)) in *.
  rewrite (all_Some _ Hrepos). fold rs. clearbody rs. clear Hrepos.
  induction Hprs as [|repo rs Hpr _ IH]; [done|].
  rewrite fmap_cons. cbn [forEach deref]. rewrite ret_bind.
  rewrite (all_Some _ Hpr), forEach_send, bind_Next, IH.
  cbn [fst snd]. by rewrite bind_cons, <-list_fmap_compose.
Qed.
End Unparseable.

Section ZeroTime.
Context `{SliceSorter}.

Lemma tally_elem {R} (ageOf : R → Duration) (rs : list R) (r : R) i :
  r ∈ rs → bucketOf (ageOf r) buckets = Some i →
  1 ≤ tally ageOf rs buckets i.
Proof.
  intros Hr Hi. unfold tally.
  assert (r ∈ filter (λ r, bucketOf (ageOf r) buckets = Some i) rs) as Hin
    by by apply list_elem_of_filter.
  destruct (filter _ rs); [by apply elem_of_nil in Hin|]. simpl. lia.
Qed.

(** C10, as the code has it.  A creation date that does not parse does
    not stop the fetcher: on a page without nil pointers every pull
    request is sent, the one with the bad date with the zero time as its
    creation date.  In the report its record comes before every record
    created in a later Unix second than the zero time, that is before
    every date from 0001-01-01T00:00:01Z on; and if the clock of [main]
    reads more than 365 days after the zero time, as every real clock
    does, the record falls into the bucket of one year and is counted
    there. *)
Theorem C10_unparseable_date_is_the_zero_time
    (time_Parse : string → option Time) :
  (∀ {R} (build : organization → repository → pullRequest → Time → R)
     (org : organization) (repos : repositories) (repo : repository)
     (pr : pullRequest),
     Forall is_Some (Nodes repos) →
     Forall (λ repo, Forall is_Some
                       (pullRequests_Nodes (repository_PullRequests repo)))
       (omap id (Nodes repos)) →
     Some repo ∈ Nodes repos →
     Some pr ∈ pullRequests_Nodes (repository_PullRequests repo) →
     time_Parse (CreatedAt pr) = None →
     (sendPullRequests time_Parse build org repos).2 = Next tt ∧
     Send (build org repo pr zeroTime)
       ∈ (sendPullRequests time_Parse build org repos).1) ∧
  (∀ (now : Time) (printables : list Printable) (p : Printable),
     p ∈ printables →
     Printable_CreatedDate p = zeroTime →
     let sorted :=
       sort_Slice (byCreatedDate Printable_CreatedDate) printables in
     (∀ q i j,
        sorted !! i = Some p → sorted !! j = Some q →
        Unix zeroTime < Unix (Printable_CreatedDate q) →
        (i < j)%nat) ∧
     (365 * Day < Sub now zeroTime →
      Z.of_nat (length printables) ≤ maxInt64 →
      bucketOf (ageAt now p) buckets = Some 0%nat ∧
      ∃ out c1 rest,
        report now printables =
          Some (FoundPulls (Z.of_nat (length printables))
                :: out
                ++ SummaryOf (Z.of_nat (length printables))
                :: BucketCount "one year" c1 :: rest) ∧
        1 ≤ c1)).
Proof.
  split.
  - intros R build org repos repo pr Hrepos Hprs Hrepo Hpr Hparse.
    rewrite (sendPullRequests_all _ _ _ _ Hrepos Hprs). split; [done|].
    cbn [fst]. apply list_elem_of_bind. exists repo. split.
    + apply list_elem_of_fmap. exists pr.
      split; [by rewrite createdDate_error|].
      apply list_elem_of_omap. by exists (Some pr).
    + apply list_elem_of_omap. by exists (Some repo).
  - intros now printables p Hp Hzero sorted.
    destruct (sorted_byCreatedDate Printable_CreatedDate printables)
      as (Hperm & Hsorted).
    fold sorted in Hperm, Hsorted. split.
    + intros q i j Hi Hj Hlt.
      destruct (decide (i < j)%nat) as [|Hge]; [done|exfalso].
      destruct (decide (i = j)) as [->|Hne].
      * rewrite Hi in Hj. injection Hj as <-. rewrite Hzero in Hlt. lia.
      * pose proof (StronglySorted_lookup_lt _ _ j i q p Hsorted Hj Hi
                      ltac:(lia)) as Hle.
        simpl in Hle. rewrite Hzero in Hle. lia.
    + intros Hnow Hlen.
      assert (bucketOf (ageAt now p) buckets = Some 0%nat) as Hbucket.
      { unfold ageAt. rewrite Hzero.
        eapply bucketOf_intro; [reflexivity|exact Hnow|lia]. }
      split; [done|].
      destruct (report_lines now printables) as (tail & Hrep & Hsum & _).
      fold sorted in Hrep, Hsum.
      rewrite <-(Permutation_length Hperm) in Hsum at 1.
      rewrite summary_tallies in Hsum
        by by rewrite (Permutation_length Hperm).
      injection Hsum as <-. eexists _, _, _. split.
      * rewrite Hrep. rewrite (Permutation_length Hperm). reflexivity.
      * apply (tally_elem _ _ p); [by rewrite Hperm|done].
Qed.
End ZeroTime.

(** A run of C10: a page with a date that does not parse. *)
Lemma C10_unparseable_date_witness :
  let bad := Example.pull 1 "yesterday" in
  let good := Example.pull 2 "2020-01-05T10:00:00Z" in
  let org := Example.org [bad; good] 0 in
  let repos := default (Repositories 0 [] []) (organization_Repositories org) in
  let repo := Repository "tools" (PullRequests [Some bad; Some good]) in
  let now := Example.at_ "2020-01-11T00:00:00Z" in
  let printables :=
    sent (getPrintables RFC3339.parse "token" "gdbu"
            [Example.page [bad; good] 0]).1 in
  let p := MkPrintable org repo bad zeroTime in
  RFC3339.parse (CreatedAt bad) = None ∧
  p ∈ printables ∧
  365 * Day < Sub now zeroTime ∧
  Z.of_nat (length printables) ≤ maxInt64 ∧
  Send p ∈ (sendPullRequests RFC3339.parse MkPrintable org repos).1 ∧
  bucketOf (ageAt now p) buckets = Some 0%nat.
Proof.
  cbv zeta.
  pose proof (C10_unparseable_date_is_the_zero_time (H := insertionSorter)
                RFC3339.parse) as [Hfetch Hreport].
  assert (MkPrintable (Example.org [Example.pull 1 "yesterday";
                         Example.pull 2 "2020-01-05T10:00:00Z"] 0)
            (Repository "tools" (PullRequests
               [Some (Example.pull 1 "yesterday");
                Some (Example.pull 2 "2020-01-05T10:00:00Z")]))
            (Example.pull 1 "yesterday") zeroTime
          ∈ sent (getPrintables RFC3339.parse "token" "gdbu"
                    [Example.page [Example.pull 1 "yesterday";
                       Example.pull 2 "2020-01-05T10:00:00Z"] 0]).1) as Hp
    by (vm_compute; left).
  split_and!; [reflexivity|exact Hp|done|done|..].
  - eapply Hfetch; [repeat constructor; by eexists..|left|left|reflexivity].
  - by eapply (Hreport _ _ _ Hp eq_refl).
Defined.

(** C10 as it is worded fails on a date of the year 0000, which is a date
    of RFC 3339 and lies before the zero time: its record is printed before
    the record whose date does not parse. *)
Lemma C10_counterexample_year_zero :
  let bad := Example.pull 1 "yesterday" in
  let early := Example.pull 2 "0000-06-01T00:00:00Z" in
  let now := Example.at_ "2020-01-11T00:00:00Z" in
  let printables :=
    sent (getPrintables RFC3339.parse "token" "gdbu"
            [Example.page [bad; early] 0]).1 in
  RFC3339.parse (CreatedAt bad) = None ∧
  RFC3339.parse (CreatedAt early) = Some (mkTime (-18489600) 0) ∧
  (Printable_CreatedDate <$> printables = [zeroTime; mkTime (-18489600) 0]) ∧
  main (H := insertionSorter) "token" now (Example.arrivals printables)
    = Some [ FoundPulls 2;
             Label "Older than one year";
             Pull maxInt64 "gdbu" "tools" 2 "Fix the build" "octocat";
             Pull maxInt64 "gdbu" "tools" 1 "Fix the build" "octocat";
             SummaryOf 2;
             BucketCount "one year" 2; BucketCount "six months" 0;
             BucketCount "three months" 0; BucketCount "one month" 0;
             BucketCount "one week" 0; NewerThan "one week" 0 ].
Proof. cbv zeta. split_and!; reflexivity. Qed.
